(** * ReAct.py: the reason / act / observe loop and its directive parser

    A shallow embedding of [src/ReAct.py].  Python text is a sequence of
    Unicode code points; the collaborators the module calls but does not
    define (the language-model client, [httpx], [BeautifulSoup], the
    built-in [eval] and [str]) are variables of a section; exceptions,
    the agent's message list and the outside world are threaded through
    a small state-and-exception monad. *)

From Stdlib Require Import ZArith NArith Lia String Ascii DecimalString.
From stdpp Require Import base option list gmap.

Local Open Scope N_scope.

(** ** Text *)

(** A Python [str] is a sequence of code points. *)
Definition char : Type := N.
Definition str : Type := list char.

(** An ASCII literal of the source, as code points. *)
Definition txt (literal : string) : str :=
  map N_of_ascii (list_ascii_of_string literal).

Definition newline : char := 10.

(** [prefix] is a prefix of [text]: [text.startswith(prefix)]. *)
Fixpoint startswith (prefix text : str) : bool :=
  match prefix, text with
  | [], _ => true
  | _ :: _, [] => false
  | p :: prefix', c :: text' => (p =? c) && startswith prefix' text'
  end.

(** Python's [needle in text] on strings. *)
Fixpoint contains (needle text : str) : bool :=
  startswith needle text ||
  match text with
  | [] => false
  | _ :: text' => contains needle text'
  end.

(** [sep.join(parts)]. *)
Fixpoint join (sep : str) (parts : list str) : str :=
  match parts with
  | [] => []
  | [p] => p
  | p :: rest => p ++ sep ++ join sep rest
  end.

(** [str.isspace] on one code point (the white space [str.strip()] removes). *)
Definition isspace (c : char) : bool :=
  ((9 <=? c) && (c <=? 13)) || ((28 <=? c) && (c <=? 32)) ||
  (c =? 133) || (c =? 160) || (c =? 5760) ||
  ((8192 <=? c) && (c <=? 8202)) || (c =? 8232) || (c =? 8233) ||
  (c =? 8239) || (c =? 8287) || (c =? 12288).

Fixpoint lstrip (text : str) : str :=
  match text with
  | c :: text' => if isspace c then lstrip text' else text
  | [] => []
  end.

(** [text.strip()]. *)
Definition strip (text : str) : str := rev (lstrip (rev (lstrip text))).

(** ** The regular expression of [extract_action]

    [re.findall(r"Action: ([a-z_]+): (.+)", text, re.IGNORECASE)]: the
    pattern as data, and a backtracking matcher for the constructs it
    uses (literals, a character set, [.], the greedy [+], groups). *)

Inductive set_item : Type :=
| RANGE (lo hi : char)
| MEMBER (c : char).

Inductive atom : Type :=
| LITERAL (c : char)
| IN (items : list set_item)
| ANY.

Inductive node : Type :=
| ONE (a : atom)
| MAX_REPEAT_1 (a : atom)
| OPEN
| CLOSE.

Definition pattern : Type := list node.

Definition literal (literal_text : string) : pattern :=
  map (fun c => ONE (LITERAL c)) (txt literal_text).

(** [r"Action: ([a-z_]+): (.+)"] *)
Definition ACTION_RE : pattern :=
  literal "Action: " ++
  [OPEN; MAX_REPEAT_1 (IN [RANGE 97 122; MEMBER 95]); CLOSE] ++
  literal ": " ++
  [OPEN; MAX_REPEAT_1 ANY; CLOSE].

(** The lower-case mapping the matcher applies under [re.IGNORECASE].
    Only the code points whose lower case is an ASCII letter are mapped
    (A-Z, U+0130, U+212A); every other code point lower-cases to itself
    or to another non-ASCII code point, which no set of [ACTION_RE]
    contains either way. *)
Definition sre_lower_unicode (c : char) : char :=
  if (65 <=? c) && (c <=? 90) then c + 32
  else if c =? 304 then 105
  else if c =? 8490 then 107
  else c.

(** The code points that share an upper case with an ASCII letter
    without being its lower case: dotless i with i, long s with s. *)
Definition ignorecase_fixes (lo : char) : list char :=
  if lo =? 105 then [305]
  else if lo =? 115 then [383]
  else [].

Definition range_members (lo hi : char) : list char :=
  map (fun k => lo + N.of_nat k) (seq 0 (N.to_nat (hi + 1 - lo))).

Definition item_members (i : set_item) : list char :=
  match i with
  | RANGE lo hi => range_members lo hi
  | MEMBER c => [c]
  end.

(** The set a literal or a character set is compiled to under
    [re.IGNORECASE]: the lower case of each member, and its fixes. *)
Definition ignorecase_set (members : list char) : list char :=
  flat_map (fun c => let lo := sre_lower_unicode c in lo :: ignorecase_fixes lo)
           members.

Definition mem (c : char) (set : list char) : bool := existsb (N.eqb c) set.

(** One code point against one atom, with the flag [re.IGNORECASE]. *)
Definition atom_matches (a : atom) (c : char) : bool :=
  match a with
  | LITERAL p => mem (sre_lower_unicode c) (ignorecase_set [p])
  | IN items =>
      mem (sre_lower_unicode c) (ignorecase_set (flat_map item_members items))
  | ANY => negb (c =? newline)
  end.

(** The greedy [+]: as many code points as match, then the rest of the
    pattern [k]; when [k] fails, one code point fewer. *)
Fixpoint max_repeat_1 {R : Type} (ok : char -> bool) (k : str -> option R)
    (text : str) : option R :=
  match text with
  | c :: text' =>
      if ok c then
        match max_repeat_1 ok k text' with
        | Some r => Some r
        | None => k text'
        end
      else None
  | [] => None
  end.

(** A match of [pat] at the start of [text]: the groups (last closed
    first) and the text left after the match.  [opened] holds the text
    at each group still open. *)
Fixpoint match_here (pat : pattern) (text : str) (opened : list str)
    (groups : list str) : option (list str * str) :=
  match pat with
  | [] => Some (groups, text)
  | ONE a :: pat' =>
      match text with
      | c :: text' =>
          if atom_matches a c then match_here pat' text' opened groups else None
      | [] => None
      end
  | MAX_REPEAT_1 a :: pat' =>
      max_repeat_1 (atom_matches a)
                   (fun text' => match_here pat' text' opened groups) text
  | OPEN :: pat' => match_here pat' text (text :: opened) groups
  | CLOSE :: pat' =>
      match opened with
      | start :: opened' =>
          match_here pat' text opened'
                     (take (length start - length text) start :: groups)
      | [] => None
      end
  end.

(** [re.findall]: the matches from left to right, not overlapping, each
    as the tuple of its groups.  [skip] counts the code points of the
    last match still to pass over.  (A match of [ACTION_RE] is never
    empty, so the rule for empty matches is not modelled.) *)
Fixpoint findall_from (pat : pattern) (skip : nat) (text : str)
    : list (list str) :=
  match skip with
  | S skip' =>
      match text with
      | _ :: text' => findall_from pat skip' text'
      | [] => []
      end
  | O =>
      match match_here pat text [] [] with
      | Some (groups, rest) =>
          rev groups ::
          match text with
          | _ :: text' =>
              findall_from pat (length text - length rest - 1) text'
          | [] => []
          end
      | None =>
          match text with
          | _ :: text' => findall_from pat 0 text'
          | [] => []
          end
      end
  end.

Definition findall (pat : pattern) (text : str) : list (list str) :=
  findall_from pat 0 text.

(** [ReActLoop.extract_action] *)
Definition extract_action (text : str) : option (str * str) :=
  match findall ACTION_RE text with
  | [name; arg] :: _ => Some (name, arg)
  | _ => None
  end.


(** ** Exceptions, state and effects *)

(** A raised exception: whether it is an instance of [Exception] (and
    not only of [BaseException], as [KeyboardInterrupt] and [SystemExit]
    are), and the arguments it was raised with, as text.  What [str(e)]
    and [f"{e}"] give is not a field: they run the exception's own
    [__str__] and [__format__], which are collaborators' code and may
    raise in their turn (see [py_str_exn] and [py_format_exn]). *)
Record exn : Type := Exn { is_Exception : bool; exn_args : str }.

Inductive outcome (A : Type) : Type :=
| Ok (a : A)
| Raise (e : exn).
Arguments Ok {A} a.
Arguments Raise {A} e.

Inductive Role : Type := system | user | assistant.

(** [{"role": role, "content": content}] *)
Record Message : Type := Msg { role : Role; content : str }.

Inductive level : Type := INFO | WARNING | ERROR.

(** What a run does to its surroundings, in order: the lines it logs,
    the completions it requests (the messages sent, and what came back)
    and the tools it calls.  The last two are not kept by the code; the
    embedding records them so that they can be counted. *)
Inductive event : Type :=
| Log (l : level) (message : str)
| Completion (sent : list Message) (result : outcome str)
| Invoke (tool_name arg : str).

Record Config : Type := mkConfig {
  MAX_ITERATIONS : Z;
  SEARCH_API : str;
  SEARCH_PARAMS : gmap str str
}.

Inductive Tool : Type :=
| BingSearch (config : Config)
| Calculator.

Record ReActLoop : Type := mkReActLoop {
  config : Config;
  tools : gmap str Tool
}.

(** [ReActLoop.__init__] *)
Definition ReActLoop_init (config : Config) : ReActLoop :=
  mkReActLoop config
    (<[txt "wikipedia" := BingSearch config]>
       (<[txt "calculate" := Calculator]> ∅)).

(** [Agent.__init__]: the messages of a new agent. *)
Definition Agent_init (system_prompt : str) : list Message :=
  match system_prompt with
  | [] => []
  | _ :: _ => [Msg system system_prompt]
  end.

(** What the loop does at the end of one pass over its body. *)
Inductive control : Type :=
| Return_ (result : str)
| Continue_ (next_prompt : str).

Definition NO_RESULTS : str := [26410; 25214; 21040; 30456; 20851; 32467; 26524].
Definition SEARCH_FAILED : str := [25628; 32034; 22833; 36133] ++ txt ": ".
Definition CALCULATE_FAILED : str := [35745; 31639; 22833; 36133] ++ txt ": ".
Definition LIMIT_REACHED : str :=
  [36798; 21040; 26368; 22823; 36845; 20195; 27425; 25968; 38480; 21046].

(** [f"{n}"] for a natural number. *)
Definition decimal (n : nat) : str :=
  txt (NilZero.string_of_uint (Nat.to_uint n)).

(** The collaborators of the module, which it calls and does not define.
    [World] is what surrounds a run (the model server, the network, the
    interpreter); a collaborator may read and change it. *)
Class Collaborators : Type := {
  World : Type;
  Response : Type;
  Soup : Type;
  Tag : Type;
  PyObject : Type;
  (** [llm_client.agent_answer(messages)] *)
  agent_answer : list Message -> World -> outcome str * World;
  (** [client.get(url, params=params)], [response.raise_for_status()],
      [response.text] *)
  client_get : str -> gmap str str -> World -> outcome Response * World;
  raise_for_status : Response -> outcome unit;
  response_text : Response -> str;
  (** [BeautifulSoup(markup, 'html.parser')], [soup.select(selector)],
      [item.select_one(selector)], [tag.get_text()] *)
  BeautifulSoup : str -> outcome Soup;
  select : Soup -> str -> list Tag;
  select_one : Tag -> str -> option Tag;
  get_text : Tag -> str;
  (** [eval(expression, {"__builtins__": {}}, {})] and [str(result)] *)
  py_eval : str -> World -> outcome PyObject * World;
  py_str : PyObject -> outcome str;
  (** [f"{e}"] and [str(e)] on a caught exception [e] *)
  py_format_exn : exn -> World -> outcome str * World;
  py_str_exn : exn -> World -> outcome str * World
}.

Section Program.

Context {C : Collaborators}.

Record state : Type := State {
  world : World;
  messages : list Message;   (* [agent.messages] *)
  trace : list event
}.

Definition M (A : Type) : Type := state -> outcome A * state.

Definition ret {A} (a : A) : M A := fun st => (Ok a, st).

Definition bind {A B} (m : M A) (f : A -> M B) : M B := fun st =>
  match m st with
  | (Ok a, st') => f a st'
  | (Raise e, st') => (Raise e, st')
  end.

Notation "x <- m ;; k" := (bind m (fun x => k))
  (at level 20, m at level 99, k at level 200, only parsing).
Notation "m ;; k" := (bind m (fun _ => k))
  (at level 100, k at level 200, only parsing, right associativity).

(** [try: body / except Exception as e: handler]: an exception that
    is not an instance of [Exception] passes through, and so does one
    that the handler raises. *)
Definition try_except {A} (body : M A) (handler : exn -> M A) : M A :=
  fun st =>
    match body st with
    | (Ok a, st') => (Ok a, st')
    | (Raise e, st') =>
        if is_Exception e then handler e st' else (Raise e, st')
    end.

Definition emit (e : event) : M unit := fun st =>
  (Ok tt, State (world st) (messages st) (trace st ++ [e])).

Definition logger (l : level) (message : str) : M unit := emit (Log l message).

(** A pure collaborator that may raise. *)
Definition lift {A} (r : outcome A) : M A := fun st => (r, st).

(** A collaborator acting on the world. *)
Definition call {A} (f : World -> outcome A * World) : M A := fun st =>
  let (r, w) := f (world st) in (r, State w (messages st) (trace st)).

(** [self.messages.append(m)] *)
Definition append_message (m : Message) : M unit := fun st =>
  (Ok tt, State (world st) (messages st ++ [m]) (trace st)).

(** *** The tools *)

(** The loop of [BingSearch.__call__] over [soup.select('.b_algo')]. *)
Fixpoint collect_results (items : list Tag) (results : list str) : list str :=
  match items with
  | [] => results
  | item :: items' =>
      let title := select_one item (txt "h2") in
      let desc := select_one item (txt ".b_caption p") in
      let results' :=
        match title, desc with
        | Some title, Some desc =>
            results ++ [strip (get_text title) ++ txt ": " ++ strip (get_text desc)]
        | _, _ => results
        end in
      if (5 <=? length results')%nat then results'
      else collect_results items' results'
  end.

(** The text [BingSearch.__call__] returns for a parsed page. *)
Definition search_results (soup : Soup) : str :=
  match collect_results (select soup (txt ".b_algo")) [] with
  | [] => NO_RESULTS
  | results => join [newline] results
  end.

(** The [try] block of [BingSearch.__call__]. *)
Definition BingSearch_try (config : Config) (query : str) : M str :=
  let params := <[txt "q" := query]> (SEARCH_PARAMS config) in
  response <- call (client_get (SEARCH_API config) params) ;;
  lift (raise_for_status response) ;;
  soup <- lift (BeautifulSoup (response_text response)) ;;
  ret (search_results soup).

(** [BingSearch.__call__] *)
Definition BingSearch_call (config : Config) (query : str) : M str :=
  try_except
    (BingSearch_try config query)
    (fun e =>
       line <- call (py_format_exn e) ;;
       logger ERROR (txt "Search API error: " ++ line) ;;
       text <- call (py_str_exn e) ;;
       ret (SEARCH_FAILED ++ text)).

(** The [try] block of [Calculator.__call__]. *)
Definition Calculator_try (expression : str) : M str :=
  result <- call (py_eval expression) ;;
  lift (py_str result).

(** [Calculator.__call__] *)
Definition Calculator_call (expression : str) : M str :=
  try_except
    (Calculator_try expression)
    (fun e =>
       line <- call (py_format_exn e) ;;
       logger ERROR (txt "Calculate error: " ++ line) ;;
       text <- call (py_str_exn e) ;;
       ret (CALCULATE_FAILED ++ text)).

(** [tool(arg)] *)
Definition Tool_call (tool : Tool) (arg : str) : M str :=
  match tool with
  | BingSearch config => BingSearch_call config arg
  | Calculator => Calculator_call arg
  end.

(** *** The agent *)

(** [Agent.execute] *)
Definition Agent_execute : M str := fun st =>
  let sent := messages st in
  let (result, w) := agent_answer sent (world st) in
  (result, State w (messages st) (trace st ++ [Completion sent result])).

(** [Agent.__call__] *)
Definition Agent_call (message : str) : M str :=
  match message with
  | _ :: _ => append_message (Msg user message)
  | [] => ret tt
  end ;;
  result <- Agent_execute ;;
  append_message (Msg assistant result) ;;
  ret result.

(** *** The loop *)

(** The body of the [for] loop of [ReActLoop.run], at index [i]. *)
Definition iteration (self : ReActLoop) (i : nat) (next_prompt : str)
  : M control :=
  result <- Agent_call next_prompt ;;
  logger INFO (txt "Iteration " ++ decimal (i + 1) ++ txt " result: " ++ result) ;;
  if contains (txt "Answer") result then ret (Return_ result)
  else if negb (contains (txt "PAUSE") result)
          || negb (contains (txt "Action") result) then
    logger WARNING (txt "Invalid response format") ;;
    ret (Continue_ next_prompt)
  else
    match extract_action result with
    | None =>
        logger WARNING (txt "Failed to extract action") ;;
        ret (Continue_ next_prompt)
    | Some (tool_name, arg) =>
        next_prompt' <-
          match tools self !! tool_name with
          | Some tool =>
              emit (Invoke tool_name arg) ;;
              result_tool <- Tool_call tool arg ;;
              ret (txt "Observation: " ++ result_tool)
          | None =>
              ret (txt "Observation: Tool '" ++ tool_name ++ txt "' not found")
          end ;;
        logger INFO (txt "Next prompt: " ++ next_prompt') ;;
        ret (Continue_ next_prompt')
    end.

(** [for i in indices: body], then the [return] after the loop. *)
Fixpoint for_loop (self : ReActLoop) (indices : list nat) (next_prompt : str)
  : M str :=
  match indices with
  | [] => ret LIMIT_REACHED
  | i :: indices' =>
      c <- iteration self i next_prompt ;;
      match c with
      | Return_ result => ret result
      | Continue_ next_prompt' => for_loop self indices' next_prompt'
      end
  end.

(** [range(n)] *)
Definition range (n : Z) : list nat := seq 0 (Z.to_nat n).

(** [ReActLoop.run(agent, query)], on the state holding [agent.messages]. *)
Definition run (self : ReActLoop) (query : str) : M str :=
  for_loop self (range (MAX_ITERATIONS (config self))) query.

End Program.

(** ** Reading a run *)

Definition is_completion (e : event) : bool :=
  match e with Completion _ _ => true | _ => false end.

Definition is_invoke (e : event) : bool :=
  match e with Invoke _ _ => true | _ => false end.

Definition is_warning (e : event) : bool :=
  match e with Log WARNING _ => true | _ => false end.

Definition count_events (f : event -> bool) (t : list event) : nat :=
  length (List.filter f t).

(** The completions requested, the tools called and the format or parse
    faults reported in a stretch of a run. *)
Definition completions (t : list event) : nat := count_events is_completion t.
Definition invocations (t : list event) : nat := count_events is_invoke t.
Definition faults (t : list event) : nat := count_events is_warning t.





(** The user message [Agent.__call__] appends for [message], if any. *)
Definition user_part (message : str) : list Message :=
  match message with
  | [] => []
  | _ :: _ => [Msg user message]
  end.

(** The states a pass of the loop goes through. *)
Section Passes.

Context {C : Collaborators}.

(** The line logged at the start of pass [i]. *)
Definition iteration_line (i : nat) (result : str) : event :=
  Log INFO (txt "Iteration " ++ decimal (i + 1) ++ txt " result: " ++ result).

(** The state once the completion [r] has come back to pass [i] and
    has been logged: the prompt and [r] appended to the messages, one
    completion requested. *)
Definition answered (st : state) (w : World) (next_prompt r : str) (i : nat)
  : state :=
  let sent := messages st ++ user_part next_prompt in
  State w (sent ++ [Msg assistant r])
        (trace st ++ [Completion sent (Ok r); iteration_line i r]).

(** [st], and one more event. *)
Definition logged (st : state) (e : event) : state :=
  State (world st) (messages st) (trace st ++ [e]).

(** The line of one result block: its heading and its caption, when it
    has both. *)
Definition result_line (item : Tag) : option str :=
  match select_one item (txt "h2"), select_one item (txt ".b_caption p") with
  | Some title, Some desc =>
      Some (strip (get_text title) ++ txt ": " ++ strip (get_text desc))
  | _, _ => None
  end.

End Passes.

(** ** The directive grammar, as the specification words it

    The pattern [Action: <name>: <rest-of-line>], letter case ignored,
    where [<name>] is one or more lower-case letters or underscores. *)

(** A code point with its letter case folded away: the ASCII capitals,
    and the four other letters that have an ASCII letter as their upper
    or lower case (U+0130 and U+0131 with i, U+017F with s, U+212A
    with k). *)
Definition casefold (c : char) : char :=
  if (65 <=? c) && (c <=? 90) then c + 32
  else if (c =? 304) || (c =? 305) then 105
  else if c =? 383 then 115
  else if c =? 8490 then 107
  else c.

Definition lowercase_or_underscore (c : char) : bool :=
  ((97 <=? c) && (c <=? 122)) || (c =? 95).

(** [name] is a capability name of the grammar, letter case ignored. *)
Definition is_name (name : str) : Prop :=
  name <> [] /\ Forall (fun c => lowercase_or_underscore (casefold c) = true) name.

(** [rest] is the rest of a line: at least one code point, none a newline. *)
Definition is_rest_of_line (rest : str) : Prop :=
  rest <> [] /\ Forall (fun c => c <> newline) rest.

(** [text], from position [p] on, reads [Action: <name>: <rest>] up to
    the end of the line. *)
Definition directive_at (text : str) (p : nat) (name rest : str) : Prop :=
  exists head tail,
    drop p text = head ++ name ++ txt ": " ++ rest ++ tail /\
    map casefold head = txt "action: " /\
    is_name name /\ is_rest_of_line rest /\
    (tail = [] \/ exists tail', tail = newline :: tail').

(** ** Collaborators to run the program on *)

Module Demo.

(** A model that reads its completions from a script and says
    [fallback] once the script is used up; the world counts the
    completions served. *)
Definition scripted (script : list (outcome str)) (fallback : outcome str)
  : list Message -> nat -> outcome str * nat :=
  fun _ served => (nth served script fallback, S served).

(** A search backend that answers status 200 with the query as its
    page, and status 500 to an empty query; when [interrupted], the
    request is cut short by [KeyboardInterrupt]. *)
Definition get (interrupted : bool) (url : str) (params : gmap str str)
    (w : nat) : outcome (N * str) * nat :=
  if interrupted then (Raise (Exn false []), w)
  else match params !! txt "q" with
       | Some (c :: q) => (Ok (200, c :: q), w)
       | _ => (Ok (500, []), w)
       end.

Definition check_status (response : N * str) : outcome unit :=
  if (200 <=? fst response) && (fst response <=? 299) then Ok tt
  else Raise (Exn true (txt "Server error '500 Internal Server Error'")).

(** A page in which every [*] is a result block with a heading and a
    caption, and every [-] a result block with a heading only. *)
Definition blocks (soup : str) (selector : str) : list char :=
  List.filter (fun c => (c =? 42) || (c =? 45)) soup.

Definition child (block : char) (selector : str) : option char :=
  if startswith (txt "h2") selector then Some 72
  else if block =? 42 then Some 67 else None.

(** An expression evaluator that knows one sum. *)
Definition evaluate (expression : str) (w : nat) : outcome Z * nat :=
  if decide (expression = txt "2 + 2") then (Ok 4%Z, w)
  else if decide (expression = txt "1/0")
       then (Raise (Exn true (txt "division by zero")), w)
       else (Raise (Exn true (txt "invalid syntax")), w).

Definition show (z : Z) : outcome str :=
  Ok (txt (NilZero.string_of_int (Z.to_int z))).

Definition collaborators (script : list (outcome str)) (fallback : outcome str)
    (interrupted : bool) : Collaborators :=
  {| World := nat;
     Response := N * str;
     Soup := str;
     Tag := char;
     PyObject := Z;
     agent_answer := scripted script fallback;
     client_get := get interrupted;
     raise_for_status := check_status;
     response_text := snd;
     BeautifulSoup := Ok;
     select := blocks;
     select_one := child;
     get_text := fun tag => [32; tag; 32];
     py_eval := evaluate;
     py_str := show;
     py_format_exn := fun e w => (Ok (exn_args e), w);
     py_str_exn := fun e w => (Ok (exn_args e), w) |}.

Definition default_config : Config :=
  mkConfig 10 (txt "https://cn.bing.com/search")
    (<[txt "form" := txt "QBRE"]> (<[txt "cc" := txt "CN"]>
       (<[txt "rdr" := txt "1"]> (<[txt "lq" := txt "0"]> ∅)))).

Definition config_with (max_iterations : Z) : Config :=
  mkConfig max_iterations (SEARCH_API default_config)
           (SEARCH_PARAMS default_config).

Definition start {C : Collaborators} (w : @World C) (system_prompt : str)
  : state :=
  State w (Agent_init system_prompt) [].


(** Completions and a fresh agent to try the loop on. *)
Definition lines (parts : list string) : str := join [newline] (map txt parts).

Definition calculate_turn : str :=
  lines ["Thought: x"; "Action: calculate: 2 + 2"; "PAUSE"]%string.
Definition answer_turn : str :=
  lines ["Thought: the Answer is close"; "Action: CALCULATE: 1+1"; "PAUSE"]%string.
Definition unknown_turn : str :=
  lines ["Action: unknown_tool: foo"; "PAUSE"]%string.
Definition shouting_turn : str :=
  lines ["Action: CALCULATE: 1+1"; "PAUSE"]%string.
Definition rambling_turn : str := txt "Thought: hmm".

Definition model (script : list str) : Collaborators :=
  collaborators (map Ok script) (Ok rambling_turn) false.

Definition loop : ReActLoop := ReActLoop_init default_config.

Definition fresh (script : list str) : @state (model script) :=
  start (C := model script) 0%nat (txt "You run in a loop").

End Demo.

(** ** The directive grammar, as a function

    What the matcher computes on [ACTION_RE], written without the
    matcher: the two runs it takes greedily, and the first position at
    which it succeeds.  These are the middle step between the code and
    [directive_at]. *)

(** The longest prefix of [text] whose code points satisfy [ok], and
    what follows it. *)
Fixpoint span_while (ok : char -> bool) (text : str) : str * str :=
  match text with
  | c :: text' =>
      if ok c then let (run, rest) := span_while ok text' in (c :: run, rest)
      else ([], text)
  | [] => ([], [])
  end.

Definition name_char (c : char) : bool := lowercase_or_underscore (casefold c).
Definition line_char (c : char) : bool := negb (c =? newline).

(** The directive that starts [text], and the text after its line. *)
Definition directive_here (text : str) : option (str * str * str) :=
  if decide (map casefold (take 8 text) = txt "action: ") then
    match span_while name_char (drop 8 text) with
    | ([], _) => None
    | (name, 58 :: 32 :: text') =>
        match span_while line_char text' with
        | ([], _) => None
        | (rest, tail) => Some (name, rest, tail)
        end
    | _ => None
    end
  else None.

(** The first directive of [text], scanning from the left. *)
Fixpoint first_directive (text : str) : option (str * str) :=
  match directive_here text with
  | Some (name, rest, _) => Some (name, rest)
  | None =>
      match text with
      | _ :: text' => first_directive text'
      | [] => None
      end
  end.

(** ** The entry point *)





Section Main.

Context {C : Collaborators}.





End Main.

(** ** More completions and collaborators to run the program on *)

Module Scenario.
Import Demo.
Definition paris_turn : str :=
  lines ["Thought: I think I have found the answer"; "Action: Paris."; "PAUSE"]%string.
Definition wikipedia_turn : str := lines ["Action: wikipedia: *-*"; "PAUSE"]%string.
Definition final_turn : str := txt "Answer: 4".
(** A model whose first request fails. *)
Definition failing : Collaborators :=
  collaborators [Raise (Exn true (txt "connection refused"))] (Ok rambling_turn) false.
(** A model that asks for a search, and a search cut short. *)
Definition interrupted : Collaborators :=
  collaborators [Ok wikipedia_turn] (Ok rambling_turn) true.
Definition question : str := txt "What is 2 + 2?".
(** An interpreter in which every expression raises an exception whose
    [__str__] divides by zero. *)
Definition unprintable : Collaborators :=
  {| World := nat;
     Response := N * str;
     Soup := str;
     Tag := char;
     PyObject := Z;
     agent_answer := scripted [Ok calculate_turn] (Ok rambling_turn);
     client_get := get false;
     raise_for_status := check_status;
     response_text := snd;
     BeautifulSoup := Ok;
     select := blocks;
     select_one := child;
     get_text := fun tag => [32; tag; 32];
     py_eval := fun _ w => (Raise (Exn true []), w);
     py_str := show;
     py_format_exn := fun _ w => (Raise (Exn true (txt "division by zero")), w);
     py_str_exn := fun _ w => (Raise (Exn true (txt "division by zero")), w) |}.
End Scenario.

(** * Properties *)

(** ** Text *)

Lemma startswith_spec (prefix text : str) :
  startswith prefix text = true <-> exists tail, text = prefix ++ tail.
Proof.
  revert text. induction prefix as [|p prefix IH]; intros text; simpl.
  - split; [intros _; now exists text | reflexivity].
  - destruct text as [|c text]; simpl.
    + split; [discriminate | intros [tail H]; discriminate].
    + rewrite andb_true_iff, N.eqb_eq, IH. split.
      * intros [-> [tail ->]]. now exists tail.
      * intros [tail H]. injection H as -> ->. split; [reflexivity | now exists tail].
Qed.

Lemma contains_spec (needle text : str) :
  contains needle text = true <-> exists before after, text = before ++ needle ++ after.
Proof.
  induction text as [|c text IH]; simpl.
  - rewrite orb_false_r, startswith_spec. split.
    + intros [tail H]. exists [], tail. exact H.
    + intros [before [after H]]. destruct before; simpl in H.
      * now exists after.
      * discriminate.
  - rewrite orb_true_iff, startswith_spec, IH. split.
    + intros [[tail H] | [before [after H]]].
      * exists [], tail. exact H.
      * exists (c :: before), after. simpl. now rewrite H.
    + intros [before [after H]]. destruct before as [|b before]; simpl in H.
      * left. now exists after.
      * right. injection H as -> ->. now exists before, after.
Qed.

Lemma span_while_app (ok : char -> bool) (text : str) :
  fst (span_while ok text) ++ snd (span_while ok text) = text.
Proof.
  induction text as [|c text IH]; simpl; [reflexivity|].
  destruct (ok c); [|reflexivity].
  destruct (span_while ok text) as [run rest]. simpl in *. now rewrite IH.
Qed.

Lemma span_while_run (ok : char -> bool) (text : str) :
  Forall (fun c => ok c = true) (fst (span_while ok text)).
Proof.
  induction text as [|c text IH]; simpl; [constructor|].
  destruct (ok c) eqn:E; [|constructor].
  destruct (span_while ok text) as [run rest]. simpl in *. now constructor.
Qed.

Lemma span_while_stop (ok : char -> bool) (text : str) c rest :
  snd (span_while ok text) = c :: rest -> ok c = false.
Proof.
  induction text as [|d text IH]; simpl; [discriminate|].
  destruct (ok d) eqn:E.
  - destruct (span_while ok text) as [run rest']. simpl in *. exact IH.
  - simpl. intros H. injection H as -> _. exact E.
Qed.

(** A run followed by a code point that stops it is what [span_while]
    takes. *)
Lemma span_while_unique (ok : char -> bool) (run rest : str) :
  Forall (fun c => ok c = true) run ->
  (forall c rest', rest = c :: rest' -> ok c = false) ->
  span_while ok (run ++ rest) = (run, rest).
Proof.
  intros Hrun Hstop. induction Hrun as [|c run Hc _ IH]; simpl.
  - destruct rest as [|c rest']; [reflexivity|].
    simpl. now rewrite (Hstop c rest' eq_refl).
  - now rewrite Hc, IH.
Qed.

(** ** The matcher on [ACTION_RE] *)

(** The matcher on three texts: the example of the system prompt's
    protocol; letters matched whatever their case, with the carriage
    return kept in the argument; a line that is not a directive passed
    over for a later one. *)
Example extract_action_calculate :
  extract_action (Demo.lines ["Thought: x"; "Action: calculate: 2 + 2"; "PAUSE"]%string)
  = Some (txt "calculate", txt "2 + 2").
Proof. reflexivity. Qed.

Example extract_action_letter_case :
  extract_action ([65; 99; 116; 304; 111; 110] ++ txt ": CALC" ++ [8490; 383; 305]
                  ++ txt ": 1+1" ++ [13; newline] ++ txt "PAUSE")
  = Some (txt "CALC" ++ [8490; 383; 305], txt "1+1" ++ [13]).
Proof. reflexivity. Qed.

Example extract_action_skips_malformed :
  extract_action (Demo.lines ["Action: Paris."; "x ACTION: a_b: c: d"]%string)
  = Some (txt "a_b", txt "c: d").
Proof. reflexivity. Qed.

Ltac compute_set :=
  match goal with
  | |- context [ignorecase_set ?m] =>
      let s := eval vm_compute in (ignorecase_set m) in
      change (ignorecase_set m) with s
  end.

Ltac split_cases :=
  repeat (match goal with
          | |- context [if ?b then _ else _] =>
              match b with
              | context [N.leb ?x ?y] => destruct (N.leb_spec x y)
              | context [N.eqb ?x ?y] => destruct (N.eqb_spec x y)
              end
          end; simpl; try lia);
  repeat (match goal with
          | |- context [N.leb ?a ?b] => destruct (N.leb_spec a b)
          | |- context [N.eqb ?a ?b] => destruct (N.eqb_spec a b)
          end; simpl; try reflexivity; try lia).

Lemma atom_name_char (c : char) :
  atom_matches (IN [RANGE 97 122; MEMBER 95]) c = name_char c.
Proof.
  unfold atom_matches. compute_set.
  unfold mem, existsb, name_char, lowercase_or_underscore, casefold,
    sre_lower_unicode.
  split_cases. 
Qed.

Lemma atom_literal (c : char) :
  Forall (fun p => atom_matches (LITERAL p) c = (casefold c =? casefold p))
         (txt "Action: ").
Proof.
  repeat constructor;
    unfold atom_matches; compute_set;
    unfold mem, existsb, casefold, sre_lower_unicode; simpl;
    split_cases.
Qed.

Lemma atom_colon (c : char) : atom_matches (LITERAL 58) c = (c =? 58).
Proof.
  unfold atom_matches; compute_set;
    unfold mem, existsb, sre_lower_unicode; simpl; split_cases.
Qed.

Lemma atom_space (c : char) : atom_matches (LITERAL 32) c = (c =? 32).
Proof.
  unfold atom_matches; compute_set;
    unfold mem, existsb, sre_lower_unicode; simpl; split_cases.
Qed.

Lemma name_char_not_colon (c : char) : name_char c = true -> c <> 58.
Proof.
  unfold name_char, lowercase_or_underscore, casefold. intros H ->.
  simpl in H. discriminate.
Qed.

Lemma max_repeat_1_span {R : Type} (ok ok' : char -> bool)
    (k : str -> option R) (text : str) :
  (forall c, ok c = ok' c) ->
  (forall c s, ok' c = true -> k (c :: s) = None) \/ (forall s, k s <> None) ->
  max_repeat_1 ok k text =
    match span_while ok' text with
    | ([], _) => None
    | (_ :: _, rest) => k rest
    end.
Proof.
  intros Hok Hk. induction text as [|c text IH]; simpl; [reflexivity|].
  rewrite Hok. destruct (ok' c) eqn:Ec; [|reflexivity].
  rewrite IH. pose proof (span_while_app ok' text) as Happ.
  pose proof (span_while_run ok' text) as Hrun.
  destruct (span_while ok' text) as [[|d run] rest]; simpl in *.
  - now subst.
  - destruct (k rest) eqn:Ek; [reflexivity|].
    destruct Hk as [Hk | Hk]; [|now apply Hk in Ek].
    rewrite <- Happ. apply Hk. now inversion Hrun.
Qed.

Lemma take_run (run rest : str) :
  take (length (run ++ rest) - length rest) (run ++ rest) = run.
Proof.
  rewrite length_app, Nat.add_sub. now rewrite take_app_length.
Qed.

Lemma match_here_literal (ps : str) (pat : pattern) (text : str)
    (opened groups : list str) :
  Forall (fun p => forall c, atom_matches (LITERAL p) c = (casefold c =? casefold p)) ps ->
  match_here (map (fun c => ONE (LITERAL c)) ps ++ pat) text opened groups =
    if decide (map casefold (take (length ps) text) = map casefold ps)
    then match_here pat (drop (length ps) text) opened groups
    else None.
Proof.
  intros Hps. revert text.
  induction Hps as [|p ps Hp _ IH]; intros text;
    cbn [match_here map app take drop length].
  - rewrite take_0. case_decide; [reflexivity | done].
  - destruct text as [|c text]; cbn [match_here map app take drop length].
    + case_decide; [discriminate | reflexivity].
    + rewrite Hp, IH. destruct (N.eqb_spec (casefold c) (casefold p)) as [E|E].
      * rewrite E. repeat case_decide; try reflexivity; exfalso; congruence.
      * case_decide; [congruence | reflexivity].
Qed.

Lemma atom_literal_all :
  Forall (fun p => forall c, atom_matches (LITERAL p) c = (casefold c =? casefold p))
         (txt "Action: ").
Proof.
  apply Forall_forall. intros p Hp c.
  pose proof (atom_literal c) as H. rewrite Forall_forall in H. now apply H.
Qed.

(** A code point other than the one a [match] looks for takes the
    default branch. *)
Ltac other_code c :=
  destruct c as [|c]; [done|];
  do 6 (try (destruct c as [c|c|]; try done)).

Lemma match_here_ACTION_RE (text : str) :
  match_here ACTION_RE text [] [] =
    match directive_here text with
    | Some (name, rest, tail) => Some ([rest; name], tail)
    | None => None
    end.
Proof.
  unfold directive_here, ACTION_RE.
  change (literal ": " ++ [OPEN; MAX_REPEAT_1 ANY; CLOSE])
    with [ONE (LITERAL 58); ONE (LITERAL 32); OPEN; MAX_REPEAT_1 ANY; CLOSE].
  unfold literal.
  rewrite (match_here_literal _ _ _ _ _ atom_literal_all).
  change (map casefold (txt "Action: ")) with (txt "action: ").
  change (length (txt "Action: ")) with 8%nat.
  case_decide; [|reflexivity].
  generalize (drop 8 text) as t. intros t.
  cbn [app match_here map txt].
  rewrite (max_repeat_1_span _ name_char);
    [| apply atom_name_char
     | left; intros c s Hc; cbn [match_here]; rewrite atom_colon;
       destruct (N.eqb_spec c 58) as [->|_];
       [now apply name_char_not_colon in Hc | reflexivity]].
  pose proof (span_while_app name_char t) as Happ.
  destruct (span_while name_char t) as [[|n name] t1]; [reflexivity|].
  simpl in Happ. subst t. cbn [match_here].
  change (n :: name ++ t1) with ((n :: name) ++ t1). rewrite take_run.
  destruct t1 as [|c1 t1]; [reflexivity|]. rewrite atom_colon.
  destruct (N.eqb_spec c1 58) as [->|Hc1]; [|now other_code c1].
  destruct t1 as [|c2 t2]; [reflexivity|]. rewrite atom_space.
  destruct (N.eqb_spec c2 32) as [->|Hc2]; [|now other_code c2].
  rewrite (max_repeat_1_span _ line_char);
    [| reflexivity | right; intros s; discriminate].
  pose proof (span_while_app line_char t2) as Happ2.
  destruct (span_while line_char t2) as [[|r rest] tail]; [reflexivity|].
  simpl in Happ2. subst t2.
  change (r :: rest ++ tail) with ((r :: rest) ++ tail). now rewrite take_run.
Qed.


Lemma extract_action_first_directive (text : str) :
  extract_action text = first_directive text.
Proof.
  unfold extract_action, findall.
  induction text as [|c text IH].
  - reflexivity.
  - cbn [findall_from first_directive]. rewrite match_here_ACTION_RE.
    destruct (directive_here (c :: text)) as [[[name rest] tail]|].
    + reflexivity.
    + exact IH.
Qed.

Lemma action_prefix_length (head : str) :
  map casefold head = txt "action: " -> length head = 8%nat.
Proof. intros H. apply (f_equal length) in H. now rewrite length_map in H. Qed.

Lemma line_char_spec (c : char) : line_char c = true <-> c <> newline.
Proof.
  unfold line_char. destruct (N.eqb_spec c newline); simpl; split; congruence.
Qed.

Lemma directive_here_spec (text name rest tail : str) :
  directive_here text = Some (name, rest, tail) <->
  exists head,
    text = head ++ name ++ txt ": " ++ rest ++ tail /\
    map casefold head = txt "action: " /\
    is_name name /\ is_rest_of_line rest /\
    (tail = [] \/ exists tail', tail = newline :: tail').
Proof.
  unfold directive_here, is_name, is_rest_of_line. split.
  - case_decide as Hhead; [|discriminate].
    pose proof (span_while_app name_char (drop 8 text)) as Happ.
    pose proof (span_while_run name_char (drop 8 text)) as Hrun.
    destruct (span_while name_char (drop 8 text)) as [[|n nm] t1]; [discriminate|].
    destruct t1 as [|c1 t1]; [discriminate|].
    destruct (decide (c1 = 58)) as [->|Hc1]; [|now other_code c1].
    destruct t1 as [|c2 t2]; [discriminate|].
    destruct (decide (c2 = 32)) as [->|Hc2]; [|now other_code c2].
    pose proof (span_while_app line_char t2) as Happ2.
    pose proof (span_while_run line_char t2) as Hrun2.
    pose proof (span_while_stop line_char t2) as Hstop2.
    destruct (span_while line_char t2) as [[|r rs] tl]; [discriminate|].
    intros [= <- <- <-]. simpl in Happ, Happ2. exists (take 8 text). repeat split.
    + rewrite <- (take_drop 8 text) at 1. f_equal. rewrite <- Happ, <- Happ2.
      reflexivity.
    + exact Hhead.
    + discriminate.
    + exact Hrun.
    + discriminate.
    + eapply Forall_impl; [exact Hrun2|]. intros c. apply line_char_spec.
    + destruct tl as [|c tl]; [now left|right].
      specialize (Hstop2 c tl eq_refl). exists tl. f_equal.
      unfold line_char in Hstop2. now destruct (N.eqb_spec c newline).
  - intros (head & -> & Hhead & [Hne Hname] & [Hre Hrest] & Htail).
    pose proof (action_prefix_length head Hhead) as Hlen.
    rewrite take_app_length' by now rewrite Hlen.
    rewrite drop_app_length' by now rewrite Hlen.
    case_decide; [|contradiction].
    rewrite span_while_unique.
    + destruct name as [|n nm]; [contradiction|].
      change (txt ": " ++ rest ++ tail) with (58 :: 32 :: rest ++ tail).
      cbv beta iota. rewrite span_while_unique.
      * destruct rest as [|r rs]; [contradiction|]. reflexivity.
      * eapply Forall_impl; [exact Hrest|]. intros c. apply line_char_spec.
      * intros c tail' ->. destruct Htail as [|[? [= -> ->]]]; [discriminate|].
        reflexivity.
    + exact Hname.
    + intros c rest' [= <- _]. reflexivity.
Qed.

Lemma directive_at_here (text : str) (p : nat) (name rest : str) :
  directive_at text p name rest <->
  exists tail, directive_here (drop p text) = Some (name, rest, tail).
Proof.
  unfold directive_at. split.
  - intros (head & tail & H). exists tail. apply directive_here_spec. now exists head.
  - intros (tail & H). apply directive_here_spec in H as (head & H).
    now exists head, tail.
Qed.

Lemma directive_at_cons (c : char) (text : str) (p : nat) (name rest : str) :
  directive_at (c :: text) (S p) name rest <-> directive_at text p name rest.
Proof. now rewrite !directive_at_here. Qed.

Lemma directive_at_unique (text : str) (p : nat) (name rest name' rest' : str) :
  directive_at text p name rest -> directive_at text p name' rest' ->
  name = name' /\ rest = rest'.
Proof.
  rewrite !directive_at_here. intros [tail H] [tail' H']. split; congruence.
Qed.

Lemma first_directive_some (text name rest : str) :
  first_directive text = Some (name, rest) <->
  exists p, directive_at text p name rest /\
            forall q name' rest', (q < p)%nat -> ~ directive_at text q name' rest'.
Proof.
  induction text as [|c text IH]; cbn [first_directive].
  - split; [discriminate|].
    intros (p & H & _). apply directive_at_here in H as [tail H].
    now destruct p.
  - destruct (directive_here (c :: text)) as [[[n r] tl]|] eqn:Here.
    + split.
      * intros [= <- <-]. exists 0%nat. split.
        -- apply directive_at_here. now exists tl.
        -- intros q ? ? Hq. inversion Hq.
      * intros ([|p] & H & Hmin).
        -- apply directive_at_here in H as [tail H]. cbn [drop] in H. congruence.
        -- exfalso. apply (Hmin 0%nat n r); [lia|].
           apply directive_at_here. now exists tl.
    + rewrite IH. split.
      * intros (p & H & Hmin). exists (S p). split.
        -- now apply directive_at_cons.
        -- intros [|q] n r Hq Hat.
           ++ apply directive_at_here in Hat as [tail Hat]. cbn [drop] in Hat.
              congruence.
           ++ apply directive_at_cons in Hat. apply (Hmin q n r); [lia | exact Hat].
      * intros ([|p] & H & Hmin).
        -- apply directive_at_here in H as [tail H]. cbn [drop] in H. congruence.
        -- exists p. split; [now apply directive_at_cons in H|].
           intros q n r Hq Hat. apply (Hmin (S q) n r); [lia|].
           now apply directive_at_cons.
Qed.

Lemma first_directive_none (text : str) :
  first_directive text = None <->
  forall p name rest, ~ directive_at text p name rest.
Proof.
  induction text as [|c text IH]; cbn [first_directive].
  - split; [|reflexivity]. intros _ p name rest H.
    apply directive_at_here in H as [tail H]. now destruct p.
  - destruct (directive_here (c :: text)) as [[[n r] tl]|] eqn:Here.
    + split; [discriminate|]. intros H. exfalso. apply (H 0%nat n r).
      apply directive_at_here. now exists tl.
    + rewrite IH. split.
      * intros H [|p] name rest Hat.
        -- apply directive_at_here in Hat as [tail Hat]. cbn [drop] in Hat.
           congruence.
        -- apply directive_at_cons in Hat. now apply H in Hat.
      * intros H p name rest Hat. apply (H (S p) name rest).
        now apply directive_at_cons.
Qed.

(** ** One pass of the loop *)

Arguments txt : simpl never.

Ltac counted :=
  try (unfold completions, faults, invocations, count_events; cbn; lia).

(** Every way through a tool: what each collaborator it calls may do. *)
Ltac tool_paths :=
  repeat (match goal with
          | |- context [client_get ?a ?b ?c] =>
              destruct (client_get a b c) as [[?|?] ?] eqn:?
          | |- context [raise_for_status ?r] =>
              destruct (raise_for_status r) as [[]|?] eqn:?
          | |- context [BeautifulSoup ?t] =>
              destruct (BeautifulSoup t) as [?|?] eqn:?
          | |- context [py_eval ?a ?b] =>
              destruct (py_eval a b) as [[?|?] ?] eqn:?
          | |- context [py_str ?v] => destruct (py_str v) as [?|?] eqn:?
          | |- context [is_Exception ?e] => destruct (is_Exception e) eqn:?
          | |- context [py_format_exn ?e ?w] =>
              destruct (py_format_exn e w) as [[?|?] ?] eqn:?
          | |- context [py_str_exn ?e ?w] =>
              destruct (py_str_exn e w) as [[?|?] ?] eqn:?
          end; cbn [world messages trace]).

Section Loop.

Context {C : Collaborators}.

(** [Agent.__call__], by what the model answers. *)
Lemma Agent_call_eq (message : str) (st : state) :
  Agent_call message st =
    let sent := messages st ++ user_part message in
    let (result, w) := agent_answer sent (world st) in
    (result,
     State w
       (match result with
        | Ok r => sent ++ [Msg assistant r]
        | Raise _ => sent
        end)
       (trace st ++ [Completion sent result])).
Proof.
  unfold Agent_call, Agent_execute, bind, append_message, ret.
  destruct message as [|c message]; cbn [user_part messages world trace].
  - rewrite app_nil_r.
    destruct (agent_answer (messages st) (world st)) as [[r|e] w]; reflexivity.
  - destruct (agent_answer (messages st ++ [Msg user (c :: message)]) (world st))
      as [[r|e] w]; reflexivity.
Qed.

(** Pass [i] up to the first test on the completion. *)
Lemma iteration_eq (self : ReActLoop) (i : nat) (next_prompt : str)
    (st : state) (r : str) (w : World) :
  agent_answer (messages st ++ user_part next_prompt) (world st) = (Ok r, w) ->
  iteration self i next_prompt st =
    let st1 := answered st w next_prompt r i in
    if contains (txt "Answer") r then (Ok (Return_ r), st1)
    else if negb (contains (txt "PAUSE") r) || negb (contains (txt "Action") r)
    then (Ok (Continue_ next_prompt),
          logged st1 (Log WARNING (txt "Invalid response format")))
    else
      match extract_action r with
      | None => (Ok (Continue_ next_prompt),
                 logged st1 (Log WARNING (txt "Failed to extract action")))
      | Some (tool_name, arg) =>
          match tools self !! tool_name with
          | Some tool =>
              match Tool_call tool arg (logged st1 (Invoke tool_name arg)) with
              | (Ok result_tool, st2) =>
                  let next_prompt' := txt "Observation: " ++ result_tool in
                  (Ok (Continue_ next_prompt'),
                   logged st2 (Log INFO (txt "Next prompt: " ++ next_prompt')))
              | (Raise e, st2) => (Raise e, st2)
              end
          | None =>
              let next_prompt' :=
                txt "Observation: Tool '" ++ tool_name ++ txt "' not found" in
              (Ok (Continue_ next_prompt'),
               logged st1 (Log INFO (txt "Next prompt: " ++ next_prompt')))
          end
      end.
Proof.
  intros Hanswer. unfold iteration, bind at 1. rewrite Agent_call_eq.
  cbv zeta. rewrite Hanswer. unfold bind at 1, logger at 1, emit at 1.
  cbn [world messages trace]. unfold answered, iteration_line.
  rewrite <- !app_assoc. cbn [app].
  destruct (contains (txt "Answer") r); [reflexivity|].
  destruct (negb (contains (txt "PAUSE") r) || negb (contains (txt "Action") r));
    [reflexivity|].
  destruct (extract_action r) as [[tool_name arg]|]; [|reflexivity].
  destruct (tools self !! tool_name) as [tool|]; [|reflexivity].
  unfold bind, emit, logger, ret, logged. cbn [world messages trace].
  destruct (Tool_call tool arg _) as [[result_tool|e] st2]; reflexivity.
Qed.

Lemma iteration_raise (self : ReActLoop) (i : nat) (next_prompt : str)
    (st : state) (e : exn) (w : World) :
  let sent := messages st ++ user_part next_prompt in
  agent_answer sent (world st) = (Raise e, w) ->
  iteration self i next_prompt st =
    (Raise e, State w sent (trace st ++ [Completion sent (Raise e)])).
Proof.
  intros sent Hanswer. unfold iteration, bind at 1. rewrite Agent_call_eq.
  cbv zeta. fold sent. now rewrite Hanswer.
Qed.

Lemma count_events_app (f : event -> bool) (a b : list event) :
  count_events f (a ++ b) = (count_events f a + count_events f b)%nat.
Proof. unfold count_events. now rewrite List.filter_app, length_app. Qed.

(** A tool leaves the messages alone and logs at most one error. *)
Lemma Tool_call_frame (tool : Tool) (arg : str) (st st' : state)
    (out : outcome str) :
  Tool_call tool arg st = (out, st') ->
  messages st' = messages st /\
  (trace st' = trace st \/ exists line, trace st' = trace st ++ [Log ERROR line]).
Proof.
  destruct tool as [cfg|]; cbn [Tool_call];
    unfold BingSearch_call, BingSearch_try, Calculator_call, Calculator_try,
      try_except, bind, call, lift, ret, logger, emit;
    tool_paths; intros [= <- <-]; cbn [world messages trace]; eauto.
Qed.


End Loop.

(** ** The loop, claim by claim *)

Section Claims.

Context {C : Collaborators}.

(** C1.  A completion that contains "Answer" ends the run on that
    pass: the loop returns the completion as it is, and the pass has
    done nothing but request it and log it -- no format check, no
    parsing, no tool -- whatever else the text contains. *)
Theorem answer_ends_run (self : ReActLoop) (i : nat) (indices : list nat)
    (next_prompt : str) (st : state) (r : str) (w : World) :
  agent_answer (messages st ++ user_part next_prompt) (world st) = (Ok r, w) ->
  contains (txt "Answer") r = true ->
  iteration self i next_prompt st
    = (Ok (Return_ r), answered st w next_prompt r i) /\
  for_loop self (i :: indices) next_prompt st
    = (Ok r, answered st w next_prompt r i).
Proof.
  intros Hanswer Hfinal.
  assert (iteration self i next_prompt st
          = (Ok (Return_ r), answered st w next_prompt r i)) as Hit.
  { rewrite (iteration_eq _ _ _ _ _ _ Hanswer). cbv zeta. now rewrite Hfinal. }
  split; [exact Hit|].
  cbn [for_loop]. unfold bind. now rewrite Hit.
Qed.

(** C3.  A completion without "Answer" that lacks "PAUSE" or lacks
    "Action" uses up one pass: one completion requested, no tool
    called, and the loop goes on to the next index with the same
    prompt. *)
Theorem format_fault_retries (self : ReActLoop) (i : nat) (indices : list nat)
    (next_prompt : str) (st : state) (r : str) (w : World) :
  agent_answer (messages st ++ user_part next_prompt) (world st) = (Ok r, w) ->
  contains (txt "Answer") r = false ->
  contains (txt "PAUSE") r = false \/ contains (txt "Action") r = false ->
  let st' := logged (answered st w next_prompt r i)
                    (Log WARNING (txt "Invalid response format")) in
  iteration self i next_prompt st = (Ok (Continue_ next_prompt), st') /\
  for_loop self (i :: indices) next_prompt st
    = for_loop self indices next_prompt st' /\
  exists new, trace st' = trace st ++ new /\
              completions new = 1%nat /\ invocations new = 0%nat.
Proof.
  intros Hanswer Hfinal Hformat st'.
  assert (iteration self i next_prompt st = (Ok (Continue_ next_prompt), st'))
    as Hit.
  { rewrite (iteration_eq _ _ _ _ _ _ Hanswer). cbv zeta. rewrite Hfinal.
    now destruct Hformat as [-> | ->]; [|rewrite orb_true_r]. }
  split; [exact Hit|]. split.
  - cbn [for_loop]. unfold bind. now rewrite Hit.
  - eexists. subst st'. unfold logged, answered. cbn [trace].
    rewrite <- app_assoc. split; [reflexivity|]. split; reflexivity.
Qed.

(** A pass whose directive names no key of the registry. *)
Lemma not_found_pass (self : ReActLoop) (i : nat) (indices : list nat)
    (next_prompt : str) (st : state) (r : str) (w : World)
    (tool_name arg : str) :
  agent_answer (messages st ++ user_part next_prompt) (world st) = (Ok r, w) ->
  contains (txt "Answer") r = false ->
  contains (txt "PAUSE") r = true ->
  contains (txt "Action") r = true ->
  extract_action r = Some (tool_name, arg) ->
  tools self !! tool_name = None ->
  let next_prompt' :=
    txt "Observation: Tool '" ++ tool_name ++ txt "' not found" in
  let st' := logged (answered st w next_prompt r i)
                    (Log INFO (txt "Next prompt: " ++ next_prompt')) in
  iteration self i next_prompt st = (Ok (Continue_ next_prompt'), st') /\
  for_loop self (i :: indices) next_prompt st
    = for_loop self indices next_prompt' st'.
Proof.
  intros Hanswer Hfinal Hpause Haction Hextract Hlookup next_prompt' st'.
  assert (iteration self i next_prompt st = (Ok (Continue_ next_prompt'), st'))
    as Hit.
  { rewrite (iteration_eq _ _ _ _ _ _ Hanswer). cbv zeta.
    now rewrite Hfinal, Hpause, Haction, Hextract, Hlookup. }
  split; [exact Hit|]. cbn [for_loop]. unfold bind. now rewrite Hit.
Qed.

(** C5.  A directive that names no key of the registry does not stop
    the loop: the next prompt is "Observation: Tool '<name>' not
    found", no tool is called, and the loop goes on. *)
Theorem unknown_tool_observed (self : ReActLoop) (i : nat) (indices : list nat)
    (next_prompt : str) (st : state) (r : str) (w : World)
    (tool_name arg : str) :
  agent_answer (messages st ++ user_part next_prompt) (world st) = (Ok r, w) ->
  contains (txt "Answer") r = false ->
  contains (txt "PAUSE") r = true ->
  contains (txt "Action") r = true ->
  extract_action r = Some (tool_name, arg) ->
  tools self !! tool_name = None ->
  let next_prompt' :=
    txt "Observation: Tool '" ++ tool_name ++ txt "' not found" in
  let st' := logged (answered st w next_prompt r i)
                    (Log INFO (txt "Next prompt: " ++ next_prompt')) in
  iteration self i next_prompt st = (Ok (Continue_ next_prompt'), st') /\
  for_loop self (i :: indices) next_prompt st
    = for_loop self indices next_prompt' st' /\
  invocations (drop (length (trace st)) (trace st')) = 0%nat.
Proof.
  intros Hanswer Hfinal Hpause Haction Hextract Hlookup next_prompt' st'.
  destruct (not_found_pass self i indices next_prompt st r w tool_name arg
              Hanswer Hfinal Hpause Haction Hextract Hlookup) as [Hit Hloop].
  repeat split; [exact Hit | exact Hloop |].
  subst st'. unfold logged, answered. cbn [trace].
  rewrite <- app_assoc, drop_app_length. reflexivity.
Qed.


Lemma for_loop_cons (self : ReActLoop) (i : nat) (indices : list nat)
    (next_prompt : str) (st : state) :
  for_loop self (i :: indices) next_prompt st =
    match iteration self i next_prompt st with
    | (Ok (Return_ result), st1) => (Ok result, st1)
    | (Ok (Continue_ next_prompt'), st1) => for_loop self indices next_prompt' st1
    | (Raise e, st1) => (Raise e, st1)
    end.
Proof.
  cbn [for_loop]. unfold bind.
  now destruct (iteration self i next_prompt st) as [[[r|p]|e] st1].
Qed.

Lemma completions_app (a b : list event) :
  completions (a ++ b) = (completions a + completions b)%nat.
Proof. apply count_events_app. Qed.


Lemma completions_cons (sent : list Message) (result : outcome str)
    (new : list event) :
  completions (Completion sent result :: new) = S (completions new).
Proof. reflexivity. Qed.







(** The registry [ReActLoop.__init__] builds has two keys. *)
Lemma registry_keys (cfg : Config) (key : str) :
  is_Some (tools (ReActLoop_init cfg) !! key) <->
  key = txt "wikipedia" \/ key = txt "calculate".
Proof.
  unfold ReActLoop_init. cbn [tools].
  rewrite !lookup_insert_is_Some, lookup_empty. split.
  - intros [<- | [_ [<- | [_ H]]]]; [now left | now right |].
    now apply is_Some_None in H.
  - intros [-> | ->]; [now left | right]. split; [discriminate | now left].
Qed.

(** C10, for a completion without "Answer".  When the first directive
    of a completion that has "PAUSE" and "Action" names a key of the
    registry in another letter case, the parser has kept the name as
    written, the lookup of that name fails, no tool is called and the
    next prompt is "Observation: Tool '<name>' not found". *)
Theorem case_variant_not_found (cfg : Config) (i : nat) (indices : list nat)
    (next_prompt : str) (st : state) (r : str) (w : World)
    (tool_name arg key : str) :
  agent_answer (messages st ++ user_part next_prompt) (world st) = (Ok r, w) ->
  contains (txt "Answer") r = false ->
  contains (txt "PAUSE") r = true ->
  contains (txt "Action") r = true ->
  extract_action r = Some (tool_name, arg) ->
  is_Some (tools (ReActLoop_init cfg) !! key) ->
  tool_name <> key ->
  map casefold tool_name = map casefold key ->
  let self := ReActLoop_init cfg in
  let next_prompt' :=
    txt "Observation: Tool '" ++ tool_name ++ txt "' not found" in
  let st' := logged (answered st w next_prompt r i)
                    (Log INFO (txt "Next prompt: " ++ next_prompt')) in
  tools self !! tool_name = None /\
  iteration self i next_prompt st = (Ok (Continue_ next_prompt'), st') /\
  for_loop self (i :: indices) next_prompt st
    = for_loop self indices next_prompt' st'.
Proof.
  intros Hanswer Hfinal Hpause Haction Hextract Hkey Hdiff Hfold self.
  assert (tools self !! tool_name = None) as Hnone.
  { apply eq_None_not_Some. intros Hname.
    apply registry_keys in Hkey, Hname.
    destruct Hkey as [-> | ->], Hname as [-> | ->];
      solve [now apply Hdiff | discriminate Hfold]. }
  split; [exact Hnone|].
  exact (not_found_pass self i indices next_prompt st r w tool_name arg
           Hanswer Hfinal Hpause Haction Hextract Hnone).
Qed.

End Claims.


Lemma answer_ends_run_witness :
  for_loop (C := Demo.model [Demo.answer_turn]) Demo.loop [0; 1; 2]%nat
           (txt "What is 1+1?") (Demo.fresh [Demo.answer_turn])
  = (Ok Demo.answer_turn,
     answered (Demo.fresh [Demo.answer_turn]) 1%nat (txt "What is 1+1?")
              Demo.answer_turn 0).
Proof.
  refine (proj2 (answer_ends_run (C := Demo.model [Demo.answer_turn])
                   Demo.loop 0 [1; 2]%nat _ _ _ _ _ _)); reflexivity.
Defined.

Lemma format_fault_retries_witness :
  fst (iteration (C := Demo.model []) Demo.loop 0 (txt "What is 1+1?")
                 (Demo.fresh []))
  = Ok (Continue_ (txt "What is 1+1?")).
Proof.
  rewrite (proj1 (format_fault_retries (C := Demo.model []) Demo.loop 0 []
                    (txt "What is 1+1?") (Demo.fresh []) Demo.rambling_turn 1%nat
                    eq_refl eq_refl (or_introl eq_refl))).
  reflexivity.
Defined.

Lemma unknown_tool_observed_witness :
  fst (iteration (C := Demo.model [Demo.unknown_turn]) Demo.loop 0
                 (txt "What is foo?") (Demo.fresh [Demo.unknown_turn]))
  = Ok (Continue_ (txt "Observation: Tool 'unknown_tool' not found")).
Proof.
  rewrite (proj1 (unknown_tool_observed (C := Demo.model [Demo.unknown_turn])
                    Demo.loop 0 [] (txt "What is foo?")
                    (Demo.fresh [Demo.unknown_turn]) Demo.unknown_turn 1%nat
                    (txt "unknown_tool") (txt "foo")
                    eq_refl eq_refl eq_refl eq_refl eq_refl eq_refl)).
  reflexivity.
Defined.

(** C10 as it is worded, without the condition on "Answer", fails: this
    completion has "PAUSE" and "Action", its first directive names
    [calculate] in capitals, and the pass returns it as the answer. *)
Lemma case_variant_with_answer :
  let r := Demo.answer_turn in
  let C := Demo.model [r] in
  contains (txt "PAUSE") r = true /\
  contains (txt "Action") r = true /\
  extract_action r = Some (txt "CALCULATE", txt "1+1") /\
  is_Some (tools Demo.loop !! txt "calculate") /\
  txt "CALCULATE" <> txt "calculate" /\
  map casefold (txt "CALCULATE") = map casefold (txt "calculate") /\
  fst (iteration (C := C) Demo.loop 0 (txt "What is 1+1?") (Demo.fresh [r]))
    = Ok (Return_ r) /\
  fst (iteration (C := C) Demo.loop 0 (txt "What is 1+1?") (Demo.fresh [r]))
    <> Ok (Continue_ (txt "Observation: Tool 'CALCULATE' not found")).
Proof.
  cbv zeta. repeat split; try reflexivity; try discriminate.
  apply registry_keys. now right.
Qed.

Lemma case_variant_not_found_witness :
  fst (iteration (C := Demo.model [Demo.shouting_turn])
                 (ReActLoop_init Demo.default_config) 0
                 (txt "What is 1+1?") (Demo.fresh [Demo.shouting_turn]))
  = Ok (Continue_ (txt "Observation: Tool 'CALCULATE' not found")).
Proof.
  rewrite (proj1 (proj2
    (case_variant_not_found (C := Demo.model [Demo.shouting_turn])
       Demo.default_config 0 [] (txt "What is 1+1?")
       (Demo.fresh [Demo.shouting_turn]) Demo.shouting_turn 1%nat
       (txt "CALCULATE") (txt "1+1") (txt "calculate")
       eq_refl eq_refl eq_refl eq_refl eq_refl
       (proj2 (registry_keys _ _) (or_intror eq_refl))
       ltac:(discriminate) eq_refl))).
  reflexivity.
Defined.




Section Dispatch.

Context {C : Collaborators}.

(** A pass calls a tool at most once, and only on the directive
    extracted from its completion. *)
Lemma iteration_invokes (self : ReActLoop) (i : nat) (next_prompt : str)
    (st st' : state) (out : outcome control) (new : list event)
    (r : str) (w : World) :
  agent_answer (messages st ++ user_part next_prompt) (world st) = (Ok r, w) ->
  iteration self i next_prompt st = (out, st') ->
  trace st' = trace st ++ new ->
  (invocations new <= 1)%nat /\
  forall tool_name arg, In (Invoke tool_name arg) new ->
    extract_action r = Some (tool_name, arg).
Proof.
  intros Hanswer Hit Htrace.
  rewrite (iteration_eq _ _ _ _ _ _ Hanswer) in Hit. cbv zeta in Hit.
  unfold answered, logged, iteration_line in Hit.
  destruct (contains (txt "Answer") r).
  { injection Hit as <- <-. cbn [trace] in Htrace.
    apply app_inv_head in Htrace as <-. split; [counted|].
    intros n a [H|[H|[]]]; discriminate H. }
  destruct (negb (contains (txt "PAUSE") r) || negb (contains (txt "Action") r)).
  { injection Hit as <- <-. cbn [trace] in Htrace.
    rewrite <- app_assoc in Htrace.
    apply app_inv_head in Htrace as <-. split; [counted|].
    intros n a [H|[H|[H|[]]]]; discriminate H. }
  destruct (extract_action r) as [[tool_name arg]|] eqn:Hextract.
  2:{ injection Hit as <- <-. cbn [trace] in Htrace.
      rewrite <- app_assoc in Htrace.
      apply app_inv_head in Htrace as <-. split; [counted|].
      intros n a [H|[H|[H|[]]]]; discriminate H. }
  destruct (tools self !! tool_name) as [tool|].
  2:{ injection Hit as <- <-. cbn [trace] in Htrace.
      rewrite <- app_assoc in Htrace.
      apply app_inv_head in Htrace as <-. split; [counted|].
      intros n a [H|[H|[H|[]]]]; discriminate H. }
  destruct (Tool_call tool arg _) as [[result_tool|e] st2] eqn:Htool;
    apply Tool_call_frame in Htool as [_ Ht]; cbn [trace] in Ht;
    injection Hit as <- <-; cbn [trace] in Htrace;
    destruct Ht as [Ht | [line Ht]]; rewrite Ht, <- ?app_assoc in Htrace;
    apply app_inv_head in Htrace as <-; (split; [counted|]);
    intros n a Hin; cbn in Hin;
    repeat (destruct Hin as [Hin|Hin]; [try discriminate Hin|]);
    try contradiction;
    now injection Hin as <- <-.
Qed.

(** A pass that calls a tool, by what the tool does. *)
Lemma dispatch_pass (self : ReActLoop) (i : nat) (next_prompt : str)
    (st : state) (r : str) (w : World) (name arg : str) (tool : Tool) :
  agent_answer (messages st ++ user_part next_prompt) (world st) = (Ok r, w) ->
  contains (txt "Answer") r = false ->
  contains (txt "PAUSE") r = true ->
  contains (txt "Action") r = true ->
  extract_action r = Some (name, arg) ->
  tools self !! name = Some tool ->
  iteration self i next_prompt st =
    match Tool_call tool arg
            (logged (answered st w next_prompt r i) (Invoke name arg)) with
    | (Ok text, st2) =>
        (Ok (Continue_ (txt "Observation: " ++ text)),
         logged st2 (Log INFO (txt "Next prompt: " ++ txt "Observation: " ++ text)))
    | (Raise e, st2) => (Raise e, st2)
    end.
Proof.
  intros Hanswer Hfinal Hpause Haction Hextract Hlookup.
  rewrite (iteration_eq _ _ _ _ _ _ Hanswer). cbv zeta.
  now rewrite Hfinal, Hpause, Haction, Hextract, Hlookup.
Qed.

(** A pass that reaches a tool records its call. *)
Lemma dispatch_invokes (self : ReActLoop) (i : nat) (next_prompt : str)
    (st st' : state) (r : str) (w : World) (name arg : str) (tool : Tool)
    (out : outcome control) (new : list event) :
  agent_answer (messages st ++ user_part next_prompt) (world st) = (Ok r, w) ->
  contains (txt "Answer") r = false ->
  contains (txt "PAUSE") r = true ->
  contains (txt "Action") r = true ->
  extract_action r = Some (name, arg) ->
  tools self !! name = Some tool ->
  iteration self i next_prompt st = (out, st') ->
  trace st' = trace st ++ new ->
  In (Invoke name arg) new.
Proof.
  intros Hanswer Hfinal Hpause Haction Hextract Hlookup Hit Htrace.
  rewrite (dispatch_pass _ _ _ _ _ _ _ _ _ Hanswer Hfinal Hpause Haction
             Hextract Hlookup) in Hit.
  destruct (Tool_call tool arg _) as [[text|e] st2] eqn:Htool;
    apply Tool_call_frame in Htool as [_ Ht];
    unfold logged, answered in Ht, Hit; cbn [trace] in Ht;
    injection Hit as <- <-; cbn [trace] in Htrace;
    destruct Ht as [Ht | [line Ht]]; rewrite Ht, <- ?app_assoc in Htrace;
    apply app_inv_head in Htrace as <-; cbn; auto.
Qed.

End Dispatch.

(** C4.  [extract_action] returns the first pair that matches the
    grammar [Action: <name>: <rest-of-line>], letter case ignored, and
    [None] when nothing matches; of two [Action:] lines the first is
    the one extracted.  A pass that gets as far as the registry with a
    name that is a key calls that tool on the extracted argument and
    builds the next prompt from what it returns; and a pass calls a
    tool on the extracted pair only, at most once. *)
Theorem extract_action_first_match (text : str) :
  (forall name rest,
     extract_action text = Some (name, rest) <->
     exists p, directive_at text p name rest /\
               forall q name' rest', (q < p)%nat -> ~ directive_at text q name' rest') /\
  (extract_action text = None <->
   forall p name rest, ~ directive_at text p name rest) /\
  (forall name rest more,
     is_name name -> is_rest_of_line rest ->
     text = txt "Action: " ++ name ++ txt ": " ++ rest ++ newline :: more ->
     extract_action text = Some (name, rest)) /\
  (forall (C : Collaborators) self i next_prompt st w st' out new,
     agent_answer (messages st ++ user_part next_prompt) (world st) = (Ok text, w) ->
     iteration self i next_prompt st = (out, st') ->
     trace st' = trace st ++ new ->
     (invocations new <= 1)%nat /\
     forall tool_name arg, In (Invoke tool_name arg) new ->
       extract_action text = Some (tool_name, arg)) /\
  (forall (C : Collaborators) self i next_prompt st w name arg tool,
     agent_answer (messages st ++ user_part next_prompt) (world st) = (Ok text, w) ->
     contains (txt "Answer") text = false ->
     contains (txt "PAUSE") text = true ->
     contains (txt "Action") text = true ->
     extract_action text = Some (name, arg) ->
     tools self !! name = Some tool ->
     iteration self i next_prompt st =
       match Tool_call tool arg
               (logged (answered st w next_prompt text i) (Invoke name arg)) with
       | (Ok result, st2) =>
           (Ok (Continue_ (txt "Observation: " ++ result)),
            logged st2 (Log INFO (txt "Next prompt: " ++ txt "Observation: "
                                  ++ result)))
       | (Raise e, st2) => (Raise e, st2)
       end /\
     forall out st' new,
       iteration self i next_prompt st = (out, st') ->
       trace st' = trace st ++ new ->
       In (Invoke name arg) new /\ invocations new = 1%nat).
Proof.
  split; [|split; [|split; [|split]]].
  - intros name rest. rewrite extract_action_first_directive.
    apply first_directive_some.
  - rewrite extract_action_first_directive. apply first_directive_none.
  - intros name rest more Hname Hrest ->.
    rewrite extract_action_first_directive. apply first_directive_some.
    exists 0%nat. split.
    + exists (txt "Action: "), (newline :: more). cbn [drop]. repeat split; eauto.
      all: try apply Hname; try apply Hrest.
    + intros q ? ? Hq. inversion Hq.
  - intros C self i next_prompt st w st' out new. apply iteration_invokes.
  - intros C self i next_prompt st w name arg tool
      Hanswer Hfinal Hpause Haction Hextract Hlookup.
    split; [now apply dispatch_pass|].
    intros out st' new Hit Htrace.
    pose proof (dispatch_invokes _ _ _ _ _ _ _ _ _ _ _ _ Hanswer Hfinal Hpause
                  Haction Hextract Hlookup Hit Htrace) as Hin.
    split; [exact Hin|].
    destruct (iteration_invokes _ _ _ _ _ _ _ _ _ Hanswer Hit Htrace) as [Hle _].
    assert (invocations new <> 0%nat); [|lia].
    intros Hzero. clear -Hin Hzero.
    induction new as [|ev new IH]; [destruct Hin|].
    destruct Hin as [-> | Hin]; [discriminate Hzero|].
    apply IH; [exact Hin|]. destruct ev; try discriminate Hzero; exact Hzero.
Qed.

Lemma extract_action_first_match_witness :
  let text := Demo.lines ["Action: calculate: 2 + 2";
                          "Action: wikipedia: Paris"; "PAUSE"]%string in
  extract_action text = Some (txt "calculate", txt "2 + 2") /\
  fst (iteration (C := Demo.model [text]) Demo.loop 0 (txt "What is 2 + 2?")
                 (Demo.fresh [text]))
  = Ok (Continue_ (txt "Observation: 4")).
Proof.
  intros text.
  destruct (extract_action_first_match text) as (_ & _ & Hfirst & _ & Hdispatch).
  assert (extract_action text = Some (txt "calculate", txt "2 + 2")) as Hextract.
  { apply (Hfirst (txt "calculate") (txt "2 + 2")
             (Demo.lines ["Action: wikipedia: Paris"; "PAUSE"]%string)).
    - split; [discriminate|]. repeat constructor.
    - split; [discriminate|]. repeat constructor; discriminate.
    - reflexivity. }
  split; [exact Hextract|].
  rewrite (proj1 (Hdispatch (Demo.model [text]) Demo.loop 0%nat
                    (txt "What is 2 + 2?") (Demo.fresh [text]) 1%nat
                    (txt "calculate") (txt "2 + 2") Calculator
                    eq_refl eq_refl eq_refl eq_refl Hextract eq_refl)).
  reflexivity.
Defined.

Section Tools.

Context {C : Collaborators}.

Lemma collect_results_take (items : list Tag) :
  forall results, (length results < 5)%nat ->
    collect_results items results = take 5 (results ++ omap result_line items).
Proof.
  induction items as [|item items IH]; intros results Hlen.
  - cbn [collect_results omap list_omap]. rewrite app_nil_r. symmetry.
    apply take_ge. lia.
  - replace (omap result_line (item :: items))
      with (match result_line item with
            | Some line => line :: omap result_line items
            | None => omap result_line items
            end) by reflexivity.
    cbn [collect_results].
    destruct (result_line item) as [line|] eqn:Eline; unfold result_line in Eline;
      destruct (select_one item (txt "h2")) as [title|];
      try destruct (select_one item (txt ".b_caption p")) as [desc|];
      try discriminate Eline;
      try (match goal with
           | |- context [(5 <=? ?n)%nat] => destruct (Nat.leb_spec 5 n)
           end; [lia | now apply IH]).
    assert (strip (get_text title) ++ txt ": " ++ strip (get_text desc) = line)
      as -> by congruence.
    match goal with
    | |- context [(5 <=? ?n)%nat] => destruct (Nat.leb_spec 5 n) as [Hfull|Hroom]
    end.
    + rewrite length_app in Hfull. cbn [length] in Hfull.
      replace (results ++ line :: omap result_line items)
        with ((results ++ [line]) ++ omap result_line items)
        by now rewrite <- app_assoc.
      rewrite take_app_length'; [reflexivity|].
      rewrite length_app. cbn [length]. lia.
    + rewrite IH by exact Hroom. now rewrite <- app_assoc.
Qed.

Lemma result_line_nonempty (item : Tag) (line : str) :
  result_line item = Some line -> line <> [].
Proof.
  unfold result_line.
  destruct (select_one item (txt "h2")); [|discriminate].
  destruct (select_one item (txt ".b_caption p")); [|discriminate].
  intros [= <-] H. apply app_eq_nil in H as [_ H]. discriminate H.
Qed.

Lemma join_nonempty (sep : str) (line : str) (more : list str) :
  line <> [] -> join sep (line :: more) <> [].
Proof.
  intros Hline. destruct more as [|next more]; cbn [join]; [exact Hline|].
  intros H. now apply app_eq_nil in H as [H _].
Qed.

(** C8.  When the page has been fetched and parsed, the search tool
    returns the lines of the first result blocks that have a heading
    and a caption, five at most, joined by newlines; when no block has
    both it returns the "no results" sentinel; either way it returns,
    and what it returns is not empty. *)
Theorem search_returns_lines (cfg : Config) (query : str) (st : state)
    (response : Response) (w : World) (soup : Soup) :
  client_get (SEARCH_API cfg) (<[txt "q" := query]> (SEARCH_PARAMS cfg)) (world st)
    = (Ok response, w) ->
  raise_for_status response = Ok tt ->
  BeautifulSoup (response_text response) = Ok soup ->
  let matched := omap result_line (select soup (txt ".b_algo")) in
  let results := take 5 matched in
  BingSearch_call cfg query st
    = (Ok (search_results soup), State w (messages st) (trace st)) /\
  (length results <= 5)%nat /\
  (results <> [] -> search_results soup = join [newline] results) /\
  (matched = [] -> search_results soup = NO_RESULTS) /\
  NO_RESULTS <> [] /\
  search_results soup <> [].
Proof.
  intros Hget Hstatus Hparse matched results.
  assert (search_results soup =
          match results with [] => NO_RESULTS | _ => join [newline] results end)
    as Hresults.
  { unfold search_results. rewrite collect_results_take by (cbn; lia).
    cbn [app]. fold matched. fold results. now destruct results. }
  split; [|split; [|split; [|split; [|split]]]].
  - unfold BingSearch_call, try_except, BingSearch_try, bind, call, lift, ret.
    now rewrite Hget, Hstatus, Hparse.
  - unfold results. rewrite length_take. lia.
  - rewrite Hresults. now destruct results.
  - intros Hnone. rewrite Hresults. unfold results. rewrite Hnone. reflexivity.
  - discriminate.
  - rewrite Hresults. destruct results as [|line more] eqn:E; [discriminate|].
    apply join_nonempty.
    assert (line ∈ matched) as Hin.
    { rewrite <- (take_drop 5 matched). fold results. rewrite E.
      apply elem_of_app. left. left. }
    apply list_elem_of_omap in Hin as (item & _ & Hline).
    now apply result_line_nonempty in Hline.
Qed.

(** C6, for the instances of [Exception] that can be printed.  A fault
    of a collaborator -- a network error, an HTTP error status, a parse
    error, an evaluation error, a result that cannot be printed -- that
    is an instance of [Exception], and for which [f"{e}"] and [str(e)]
    return, does not leave the tool: the tool logs it and returns its
    failure prefix followed by [str(e)].  A fault that is not an
    instance of [Exception] leaves the tool as it is, nothing logged. *)
Theorem fault_becomes_text (e : exn) :
  let params cfg query := <[txt "q" := query]> (SEARCH_PARAMS cfg) in
  let search_fault cfg query st w :=
    client_get (SEARCH_API cfg) (params cfg query) (world st) = (Raise e, w) \/
    (exists response,
       client_get (SEARCH_API cfg) (params cfg query) (world st) = (Ok response, w) /\
       (raise_for_status response = Raise e \/
        (raise_for_status response = Ok tt /\
         BeautifulSoup (response_text response) = Raise e))) in
  let calculate_fault expression st w :=
    py_eval expression (world st) = (Raise e, w) \/
    (exists result,
       py_eval expression (world st) = (Ok result, w) /\
       py_str result = Raise e) in
  (forall cfg query st w,
     search_fault cfg query st w ->
     (is_Exception e = true ->
      forall line w1 text w2,
        py_format_exn e w = (Ok line, w1) ->
        py_str_exn e w1 = (Ok text, w2) ->
        BingSearch_call cfg query st
          = (Ok (SEARCH_FAILED ++ text),
             State w2 (messages st)
                   (trace st ++ [Log ERROR (txt "Search API error: " ++ line)]))) /\
     (is_Exception e = false ->
      BingSearch_call cfg query st = (Raise e, State w (messages st) (trace st)))) /\
  (forall expression st w,
     calculate_fault expression st w ->
     (is_Exception e = true ->
      forall line w1 text w2,
        py_format_exn e w = (Ok line, w1) ->
        py_str_exn e w1 = (Ok text, w2) ->
        Calculator_call expression st
          = (Ok (CALCULATE_FAILED ++ text),
             State w2 (messages st)
                   (trace st ++ [Log ERROR (txt "Calculate error: " ++ line)]))) /\
     (is_Exception e = false ->
      Calculator_call expression st = (Raise e, State w (messages st) (trace st)))).
Proof.
  intros params search_fault calculate_fault.
  unfold BingSearch_call, Calculator_call, try_except, BingSearch_try,
    Calculator_try, bind, call, lift, ret, logger, emit.
  split.
  - intros cfg query st w Hfault. fold (params cfg query).
    destruct Hfault as [Hget | (response & Hget & [Hstatus | [Hstatus Hparse]])];
      rewrite Hget; cbn [world messages trace]; rewrite ?Hstatus, ?Hparse;
      (split; [intros He line w1 text w2 Hline Htext;
               rewrite He; cbn [world messages trace]; rewrite Hline;
               cbn [world messages trace]; now rewrite Htext
              | intros He; now rewrite He]).
  - intros expression st w Hfault.
    destruct Hfault as [Heval | (result & Heval & Hstr)];
      rewrite Heval; cbn [world messages trace]; rewrite ?Hstr;
      (split; [intros He line w1 text w2 Hline Htext;
               rewrite He; cbn [world messages trace]; rewrite Hline;
               cbn [world messages trace]; now rewrite Htext
              | intros He; now rewrite He]).
Qed.

End Tools.

Lemma search_returns_lines_witness :
  fst (BingSearch_call (C := Demo.model []) Demo.default_config (txt "a*-*b")
                       (Demo.fresh []))
  = Ok (Demo.lines ["H: C"; "H: C"]%string).
Proof.
  rewrite (proj1 (search_returns_lines (C := Demo.model []) Demo.default_config
                    (txt "a*-*b") (Demo.fresh []) (200, txt "a*-*b") 0%nat
                    (txt "a*-*b") eq_refl eq_refl eq_refl)).
  reflexivity.
Defined.

Lemma fault_becomes_text_witness :
  fst (Calculator_call (C := Demo.model []) (txt "1/0") (Demo.fresh []))
  = Ok (CALCULATE_FAILED ++ txt "division by zero").
Proof.
  rewrite (proj1 (proj2 (fault_becomes_text (C := Demo.model [])
                           (Exn true (txt "division by zero")))
                        (txt "1/0") (Demo.fresh []) 0%nat (or_introl eq_refl))
                 eq_refl (txt "division by zero") 0%nat
                 (txt "division by zero") 0%nat eq_refl eq_refl).
  reflexivity.
Defined.

(** C6 as it is worded, for any exception, fails: [KeyboardInterrupt]
    is not an instance of [Exception], and when it cuts the request
    short it leaves the search tool. *)
Lemma keyboard_interrupt_escapes :
  let C := Demo.collaborators [] (Ok Demo.rambling_turn) true in
  fst (Tool_call (C := C) (BingSearch Demo.default_config) (txt "Paris")
                 (Demo.start (C := C) 0%nat []))
  = Raise (Exn false []).
Proof. reflexivity. Qed.

(** ** Whole runs *)



Ltac pass_events :=
  eexists; cbn [trace messages];
  split; [reflexivity|];
  split; [rewrite <- ?app_assoc; reflexivity|];
  split; [counted|].

Section Runs.

Context {C : Collaborators}.

(** Induction on the passes of a run. *)
Lemma for_loop_induction (self : ReActLoop)
    (P : list nat -> str -> state -> outcome str -> state -> Prop) :
  (forall next_prompt st, P [] next_prompt st (Ok LIMIT_REACHED) st) ->
  (forall i indices next_prompt st r st1,
     iteration self i next_prompt st = (Ok (Return_ r), st1) ->
     P (i :: indices) next_prompt st (Ok r) st1) ->
  (forall i indices next_prompt st e st1,
     iteration self i next_prompt st = (Raise e, st1) ->
     P (i :: indices) next_prompt st (Raise e) st1) ->
  (forall i indices next_prompt st next_prompt' st1 out st',
     iteration self i next_prompt st = (Ok (Continue_ next_prompt'), st1) ->
     for_loop self indices next_prompt' st1 = (out, st') ->
     P indices next_prompt' st1 out st' ->
     P (i :: indices) next_prompt st out st') ->
  forall indices next_prompt st out st',
    for_loop self indices next_prompt st = (out, st') ->
    P indices next_prompt st out st'.
Proof.
  intros Hdone Hreturn Hraise Hcontinue.
  induction indices as [|i indices IH]; intros next_prompt st out st' Hrun.
  - injection Hrun as <- <-. apply Hdone.
  - rewrite for_loop_cons in Hrun.
    destruct (iteration self i next_prompt st) as [[[r|p]|e] st1] eqn:Hit.
    + injection Hrun as <- <-. now apply Hreturn.
    + eapply Hcontinue; eauto.
    + injection Hrun as <- <-. now apply Hraise.
Qed.

(** One pass, by the completion that came back and the branch taken. *)
Lemma iteration_cases (self : ReActLoop) (i : nat) (next_prompt : str)
    (st st' : state) (out : outcome control) :
  iteration self i next_prompt st = (out, st') ->
  let sent := messages st ++ user_part next_prompt in
  exists result w new,
    agent_answer sent (world st) = (result, w) /\
    trace st' = trace st ++ Completion sent result :: new /\
    completions new = 0%nat /\
    match result with
    | Raise e => out = Raise e /\ new = [] /\ messages st' = sent
    | Ok r =>
        messages st' = sent ++ [Msg assistant r] /\
        ((contains (txt "Answer") r = true /\ out = Ok (Return_ r) /\
          invocations new = 0%nat /\ faults new = 0%nat) \/
         (contains (txt "Answer") r = false /\ out = Ok (Continue_ next_prompt) /\
          invocations new = 0%nat /\ faults new = 1%nat) \/
         (contains (txt "Answer") r = false /\ faults new = 0%nat /\
          exists name arg,
            extract_action r = Some (name, arg) /\
            ((tools self !! name = None /\ invocations new = 0%nat /\
              out = Ok (Continue_ (txt "Observation: Tool '" ++ name
                                   ++ txt "' not found"))) \/
             (is_Some (tools self !! name) /\ invocations new = 1%nat /\
              (forall name' arg', In (Invoke name' arg') new ->
                 name' = name /\ arg' = arg) /\
              ((exists text, out = Ok (Continue_ (txt "Observation: " ++ text))) \/
               (exists e, out = Raise e))))))
    end.
Proof.
  intros Hit sent.
  destruct (agent_answer sent (world st)) as [[r|e] w] eqn:Hanswer.
  2:{ rewrite (iteration_raise _ _ _ _ _ _ Hanswer) in Hit.
      injection Hit as <- <-. exists (Raise e), w, []. auto 10. }
  rewrite (iteration_eq _ _ _ _ _ _ Hanswer) in Hit. cbv zeta in Hit.
  exists (Ok r), w. unfold answered, logged, iteration_line in Hit.
  destruct (contains (txt "Answer") r) eqn:Hfinal.
  { injection Hit as <- <-. pass_events.
    split; [reflexivity|]. left. repeat split; counted. }
  destruct (negb (contains (txt "PAUSE") r) || negb (contains (txt "Action") r)).
  { injection Hit as <- <-. pass_events.
    split; [reflexivity|]. right. left. repeat split; counted. }
  destruct (extract_action r) as [[name arg]|] eqn:Hextract.
  2:{ injection Hit as <- <-. pass_events.
      split; [reflexivity|]. right. left. repeat split; counted. }
  destruct (tools self !! name) as [tool|] eqn:Hlookup.
  2:{ injection Hit as <- <-. pass_events.
      split; [reflexivity|]. right. right.
      split; [reflexivity|]. split; [counted|]. exists name, arg.
      split; [reflexivity|]. left. split; [exact Hlookup|].
      split; [counted | reflexivity]. }
  destruct (Tool_call tool arg _) as [[text|e] st2] eqn:Htool.
  - destruct (Tool_call_frame _ _ _ _ _ Htool) as [Hm Ht].
    cbn [trace messages] in Hm, Ht. injection Hit as <- <-.
    cbn [trace messages]. rewrite Hm.
    destruct Ht as [-> | [line ->]]; pass_events;
      (split; [reflexivity|]); right; right;
      (split; [reflexivity|]); (split; [counted|]); exists name, arg;
      (split; [reflexivity|]); right;
      (split; [rewrite Hlookup; eauto|]); (split; [counted|]);
      (split; [|left; eauto]);
      intros n a Hin; cbn in Hin;
      repeat (destruct Hin as [Hin|Hin]; [try discriminate Hin|]);
      try contradiction; now injection Hin as <- <-.
  - destruct (Tool_call_frame _ _ _ _ _ Htool) as [Hm Ht].
    cbn [trace messages] in Hm, Ht. injection Hit as <- <-. rewrite Hm.
    destruct Ht as [Ht | [line Ht]]; rewrite Ht; pass_events;
      (split; [reflexivity|]); right; right;
      (split; [reflexivity|]); (split; [counted|]); exists name, arg;
      (split; [reflexivity|]); right;
      (split; [rewrite Hlookup; eauto|]); (split; [counted|]);
      (split; [|right; eauto]);
      intros n a Hin; cbn in Hin;
      repeat (destruct Hin as [Hin|Hin]; [try discriminate Hin|]);
      try contradiction; now injection Hin as <- <-.
Qed.


Lemma no_completion (new : list event) (sent : list Message)
    (result : outcome str) :
  completions new = 0%nat -> ~ In (Completion sent result) new.
Proof.
  induction new as [|e new IH]; [easy|]. intros Hc [-> | Hin].
  - discriminate Hc.
  - apply IH; [|exact Hin]. destruct e; try discriminate Hc; exact Hc.
Qed.






Lemma observation_prefix (text : str) :
  startswith (txt "Observation: ") (txt "Observation: " ++ text) = true.
Proof. apply startswith_spec. now exists text. Qed.

(** What a pass adds to the messages, and the prompt it hands on. *)
Lemma pass_summary (self : ReActLoop) (i : nat) (next_prompt : str)
    (st st1 : state) (out1 : outcome control) :
  iteration self i next_prompt st = (out1, st1) ->
  let sent := messages st ++ user_part next_prompt in
  exists result new1,
    trace st1 = trace st ++ Completion sent result :: new1 /\
    completions new1 = 0%nat /\
    messages st1 = sent ++ match result with
                           | Ok r => [Msg assistant r]
                           | Raise _ => []
                           end /\
    match out1 with
    | Ok (Return_ r) => result = Ok r /\ contains (txt "Answer") r = true
    | Ok (Continue_ next_prompt') =>
        (exists r, result = Ok r /\ contains (txt "Answer") r = false) /\
        (next_prompt' = next_prompt \/
         startswith (txt "Observation: ") next_prompt' = true)
    | Raise e => True
    end.
Proof.
  intros Hit sent.
  apply iteration_cases in Hit as (result & w & new & _ & Ht & Hc & Hres).
  exists result, new. split; [exact Ht|]. split; [exact Hc|].
  destruct result as [r|e].
  - destruct Hres as [Hm Hbranch]. split; [exact Hm|].
    destruct Hbranch as [(Hf & -> & _) | [(Hf & -> & _) | (Hf & _ & n & a & _ & H)]].
    + auto.
    + eauto.
    + destruct H as [(_ & _ & ->) | (_ & _ & _ & [[text ->] | [e ->]])].
      * split; [eauto|]. right.
        change (txt "Observation: Tool '" ++ n ++ txt "' not found")
          with (txt "Observation: " ++ (txt "Tool '" ++ n ++ txt "' not found")).
        apply observation_prefix.
      * split; [eauto|]. right. apply observation_prefix.
      * exact I.
  - destruct Hres as (-> & _ & Hm). rewrite app_nil_r. auto.
Qed.



Lemma no_invoke (new : list event) (name arg : str) :
  invocations new = 0%nat -> ~ In (Invoke name arg) new.
Proof.
  induction new as [|e new IH]; [easy|]. intros Hc [-> | Hin].
  - discriminate Hc.
  - apply IH; [|exact Hin]. destruct e; try discriminate Hc; exact Hc.
Qed.

(** The tool calls of a pass. *)
Lemma pass_invokes (self : ReActLoop) (i : nat) (next_prompt : str)
    (st st1 : state) (out1 : outcome control) :
  iteration self i next_prompt st = (out1, st1) ->
  exists result new1,
    trace st1 = trace st ++ Completion (messages st ++ user_part next_prompt) result
                            :: new1 /\
    forall name arg, In (Invoke name arg) new1 ->
      is_Some (tools self !! name) /\
      exists r, result = Ok r /\ contains (txt "Answer") r = false /\
                extract_action r = Some (name, arg).
Proof.
  intros Hit.
  apply iteration_cases in Hit as (result & w & new & _ & Ht & Hc & Hres).
  exists result, new. split; [exact Ht|]. intros name arg Hin.
  destruct result as [r|e]; [|destruct Hres as (_ & -> & _); destruct Hin].
  destruct Hres as [_ [(_ & _ & H0 & _) | [(_ & _ & H0 & _) | H]]];
    try (now apply (no_invoke _ name arg) in H0).
  destruct H as (Hf & _ & n & a & He & [(_ & H0 & _) | (Hk & _ & Honly & _)]).
  - now apply (no_invoke _ name arg) in H0.
  - destruct (Honly _ _ Hin) as [-> ->]. eauto.
Qed.

Lemma for_loop_invocations (self : ReActLoop) (indices : list nat)
    (next_prompt : str) (st st' : state) (out : outcome str) :
  for_loop self indices next_prompt st = (out, st') ->
  exists new,
    trace st' = trace st ++ new /\
    forall name arg, In (Invoke name arg) new ->
      is_Some (tools self !! name) /\
      exists sent r, In (Completion sent (Ok r)) new /\
                     contains (txt "Answer") r = false /\
                     extract_action r = Some (name, arg).
Proof.
  revert indices next_prompt st out st'.
  apply (for_loop_induction self
    (fun indices next_prompt st out st' =>
       exists new,
         trace st' = trace st ++ new /\
         forall name arg, In (Invoke name arg) new ->
           is_Some (tools self !! name) /\
           exists sent r, In (Completion sent (Ok r)) new /\
                          contains (txt "Answer") r = false /\
                          extract_action r = Some (name, arg))).
  - intros next_prompt st. exists []. rewrite app_nil_r. split; [reflexivity|].
    intros ? ? [].
  - intros i indices next_prompt st r st1 Hit.
    apply pass_invokes in Hit as (result & new1 & Ht & Hinv).
    eexists. split; [exact Ht|]. intros name arg [Hin | Hin]; [discriminate Hin|].
    destruct (Hinv _ _ Hin) as (Hk & r0 & -> & Hf & He). split; [exact Hk|].
    eexists _, r0. split; [now left | auto].
  - intros i indices next_prompt st e st1 Hit.
    apply pass_invokes in Hit as (result & new1 & Ht & Hinv).
    eexists. split; [exact Ht|]. intros name arg [Hin | Hin]; [discriminate Hin|].
    destruct (Hinv _ _ Hin) as (Hk & r0 & -> & Hf & He). split; [exact Hk|].
    eexists _, r0. split; [now left | auto].
  - intros i indices next_prompt st next_prompt' st1 out st' Hit _ (new2 & Ht2 & Hinv2).
    apply pass_invokes in Hit as (result & new1 & Ht & Hinv).
    exists ((Completion (messages st ++ user_part next_prompt) result :: new1) ++ new2).
    rewrite Ht2, Ht, <- app_assoc. split; [reflexivity|].
    intros name arg Hin. apply in_app_or in Hin as [[Hin | Hin] | Hin].
    + discriminate Hin.
    + destruct (Hinv _ _ Hin) as (Hk & r0 & -> & Hf & He). split; [exact Hk|].
      eexists _, r0. split; [now left | auto].
    + destruct (Hinv2 _ _ Hin) as (Hk & sent & r0 & Hc & Hf & He). split; [exact Hk|].
      exists sent, r0. split; [|auto]. apply in_or_app. now right.
Qed.

(** What a run returns: a completion with "Answer" in it, which is the
    last message, or the sentinel after a pass for every index. *)
Lemma for_loop_result (self : ReActLoop) (indices : list nat)
    (next_prompt : str) (st st' : state) (out : outcome str) :
  for_loop self indices next_prompt st = (out, st') ->
  forall result, out = Ok result ->
    (contains (txt "Answer") result = true /\
     last (messages st') = Some (Msg assistant result)) \/
    (result = LIMIT_REACHED /\
     exists new, trace st' = trace st ++ new /\
                 completions new = length indices /\
                 forall sent answer, In (Completion sent answer) new ->
                   exists r, answer = Ok r /\ contains (txt "Answer") r = false).
Proof.
  revert indices next_prompt st out st'.
  apply (for_loop_induction self
    (fun indices next_prompt st out st' =>
       forall result, out = Ok result ->
         (contains (txt "Answer") result = true /\
          last (messages st') = Some (Msg assistant result)) \/
         (result = LIMIT_REACHED /\
          exists new, trace st' = trace st ++ new /\
                      completions new = length indices /\
                      forall sent answer, In (Completion sent answer) new ->
                        exists r, answer = Ok r /\
                                  contains (txt "Answer") r = false))).
  - intros next_prompt st result [= <-]. right. split; [reflexivity|].
    exists []. rewrite app_nil_r. repeat split. intros ? ? [].
  - intros i indices next_prompt st r st1 Hit result [= <-]. left.
    apply pass_summary in Hit as (result & new1 & _ & _ & Hm & -> & Hf).
    split; [exact Hf|]. rewrite Hm. apply last_snoc.
  - intros i indices next_prompt st e st1 _ result Hout. discriminate Hout.
  - intros i indices next_prompt st next_prompt' st1 out st' Hit _ IH result Hout.
    destruct (IH result Hout) as [Hanswer | (-> & new2 & Ht2 & Hc2 & Hall2)];
      [now left | right].
    split; [reflexivity|].
    apply pass_summary in Hit as (r0 & new1 & Ht & Hc & _ & [(r & -> & Hf) _]).
    exists ((Completion (messages st ++ user_part next_prompt) (Ok r) :: new1) ++ new2).
    rewrite Ht2, Ht, <- app_assoc. split; [reflexivity|].
    rewrite completions_app, completions_cons, Hc, Hc2. split; [reflexivity|].
    intros sent answer Hin. apply in_app_or in Hin as [[Hin | Hin] | Hin].
    + injection Hin as <- <-. eauto.
    + now apply no_completion in Hin.
    + eauto.
Qed.

End Runs.

(** ** More on the parser *)

Lemma extract_action_shape (text name arg : str) :
  extract_action text = Some (name, arg) ->
  is_name name /\ is_rest_of_line arg /\
  exists before after,
    text = before ++ name ++ txt ": " ++ arg ++ after /\
    (after = [] \/ exists after', after = newline :: after').
Proof.
  rewrite extract_action_first_directive. intros H.
  apply first_directive_some in H as (p & (head & tail & Hdrop & _ & Hn & Hr & Ht) & _).
  split; [exact Hn|]. split; [exact Hr|].
  exists (take p text ++ head), tail. split; [|exact Ht].
  rewrite <- (take_drop p text) at 1. rewrite Hdrop. now rewrite <- app_assoc.
Qed.

Lemma casefold_newline (c : char) : casefold c = newline -> c = newline.
Proof.
  unfold casefold, newline.
  repeat (match goal with
          | |- context [if ?b then _ else _] =>
              match b with
              | context [N.leb ?x ?y] => destruct (N.leb_spec x y)
              | context [N.eqb ?x ?y] => destruct (N.eqb_spec x y)
              end
          end; cbn [andb orb]); lia.
Qed.

(** The code points of a directive, from [Action] to the end of its
    argument, hold no newline. *)
Lemma directive_one_line (head name rest : str) :
  map casefold head = txt "action: " -> is_name name -> is_rest_of_line rest ->
  Forall (fun c => c <> newline) (head ++ name ++ txt ": " ++ rest).
Proof.
  intros Hhead [_ Hname] [_ Hrest]. rewrite !Forall_app. repeat split.
  - apply Forall_forall. intros c Hc Hnl. subst c.
    assert (newline ∈ map casefold head) as Hin.
    { apply list_elem_of_fmap. exists newline. now split. }
    rewrite Hhead in Hin. vm_compute in Hin.
    repeat (apply elem_of_cons in Hin as [Hin | Hin]; [discriminate Hin|]).
    now apply elem_of_nil in Hin.
  - eapply Forall_impl; [exact Hname|]. intros c Hc ->. discriminate Hc.
  - repeat constructor; discriminate.
  - exact Hrest.
Qed.

(** A text without newline that starts [text ++ newline :: more] and is
    followed by nothing or a newline starts [text] in the same way. *)
Lemma one_line_prefix (line tail text more : str) :
  Forall (fun c => c <> newline) line ->
  (tail = [] \/ exists tail', tail = newline :: tail') ->
  line ++ tail = text ++ newline :: more ->
  exists tail0, text = line ++ tail0 /\
                (tail0 = [] \/ exists tail', tail0 = newline :: tail').
Proof.
  revert text. induction line as [|c line IH]; intros text Hline Htail Heq.
  - exists text. split; [reflexivity|]. destruct text as [|d text]; [now left|].
    right. destruct Htail as [-> | [tail' ->]]; [discriminate Heq|].
    injection Heq as <- _. eauto.
  - inversion Hline as [|? ? Hc Hline']; subst. destruct text as [|d text].
    + injection Heq as -> _. now contradict Hc.
    + injection Heq as <- Heq.
      destruct (IH text Hline' Htail Heq) as (tail0 & -> & Ht0). eauto.
Qed.

Lemma directive_here_app (text more name rest tail : str) :
  directive_here text = Some (name, rest, tail) ->
  directive_here (text ++ newline :: more)
    = Some (name, rest, tail ++ newline :: more).
Proof.
  intros H. apply directive_here_spec in H as (head & -> & Hh & Hn & Hr & Ht).
  apply directive_here_spec. exists head. rewrite <- !app_assoc.
  repeat split; try apply Hn; try apply Hr; auto.
  right. destruct Ht as [-> | [tail' ->]]; cbn [app]; eauto.
Qed.

Lemma directive_here_back (text more name rest tail : str) :
  directive_here (text ++ newline :: more) = Some (name, rest, tail) ->
  exists tail0, directive_here text = Some (name, rest, tail0).
Proof.
  intros H. apply directive_here_spec in H as (head & Heq & Hh & Hn & Hr & Ht).
  pose proof (directive_one_line head name rest Hh Hn Hr) as Hline.
  destruct (one_line_prefix (head ++ name ++ txt ": " ++ rest) tail text more
              Hline Ht) as (tail0 & Htext & Ht0).
  { rewrite Heq. now rewrite <- !app_assoc. }
  exists tail0. apply directive_here_spec. exists head.
  rewrite Htext, <- !app_assoc. repeat split; try apply Hn; try apply Hr; auto.
Qed.

(** ** Further properties of the loop *)

Section More.

Context {C : Collaborators}.


(** X2.  A run that returns has returned either a completion that
    contains "Answer", which is then the last message of the
    transcript, or the sentinel, after a pass for every index in none
    of which the completion contained "Answer". *)
Theorem run_returns_answer_or_sentinel (self : ReActLoop) (query : str)
    (st st' : state) (result : str) :
  run self query st = (Ok result, st') ->
  (contains (txt "Answer") result = true /\
   last (messages st') = Some (Msg assistant result)) \/
  (result = LIMIT_REACHED /\
   exists new, trace st' = trace st ++ new /\
               completions new = Z.to_nat (MAX_ITERATIONS (config self)) /\
               forall sent answer, In (Completion sent answer) new ->
                 exists r, answer = Ok r /\ contains (txt "Answer") r = false).
Proof.
  intros Hrun. unfold run in Hrun.
  destruct (for_loop_result _ _ _ _ _ _ Hrun result eq_refl)
    as [H | (-> & new & Ht & Hc & Hall)]; [now left | right].
  split; [reflexivity|]. exists new. unfold range in Hc.
  rewrite length_seq in Hc. auto.
Qed.




(** X6.  A run calls a tool only under a key of the registry, on a
    name and an argument that [extract_action] took from a completion
    of the run that had no "Answer" in it; the argument is one line and
    not empty. *)
Theorem invoked_tools_registered (self : ReActLoop) (query : str) (st : state) :
  exists new,
    trace (snd (run self query st)) = trace st ++ new /\
    forall name arg, In (Invoke name arg) new ->
      is_Some (tools self !! name) /\
      is_name name /\ is_rest_of_line arg /\
      exists sent r, In (Completion sent (Ok r)) new /\
                     contains (txt "Answer") r = false /\
                     extract_action r = Some (name, arg).
Proof.
  unfold run. destruct (for_loop _ _ _ _) as [out st'] eqn:Hrun.
  apply for_loop_invocations in Hrun as (new & Ht & Hinv).
  exists new. split; [exact Ht|]. intros name arg Hin.
  destruct (Hinv _ _ Hin) as (Hk & sent & r & Hc & Hf & He).
  destruct (extract_action_shape _ _ _ He) as (Hn & Ha & _). eauto 10.
Qed.

(** X7.  With [MAX_ITERATIONS] zero or negative the run returns the
    sentinel at once: no completion requested, nothing appended. *)
Theorem zero_budget_returns_sentinel (self : ReActLoop) (query : str)
    (st : state) :
  (MAX_ITERATIONS (config self) <= 0)%Z ->
  run self query st = (Ok LIMIT_REACHED, st).
Proof.
  intros Hmax. unfold run, range.
  now replace (Z.to_nat (MAX_ITERATIONS (config self))) with 0%nat by lia.
Qed.

(** X8.  When the request for a completion raises, whatever the class
    of the exception, the loop does not catch it: the run ends with
    that exception, the prompt has been appended as a user message (if
    it is not empty) and no assistant message follows it. *)
Theorem completion_fault_aborts (self : ReActLoop) (i : nat) (indices : list nat)
    (next_prompt : str) (st : state) (e : exn) (w : World) :
  let sent := messages st ++ user_part next_prompt in
  agent_answer sent (world st) = (Raise e, w) ->
  for_loop self (i :: indices) next_prompt st
    = (Raise e, State w sent (trace st ++ [Completion sent (Raise e)])).
Proof.
  intros sent Hanswer. rewrite for_loop_cons.
  now rewrite (iteration_raise _ _ _ _ _ _ Hanswer).
Qed.

(** X10.  A completion without "Answer" that has "PAUSE" and "Action"
    in it but no directive that [extract_action] can read uses up one
    pass: a warning is logged, no tool is called, and the loop goes on
    with the same prompt. *)
Theorem parse_fault_retries (self : ReActLoop) (i : nat) (indices : list nat)
    (next_prompt : str) (st : state) (r : str) (w : World) :
  agent_answer (messages st ++ user_part next_prompt) (world st) = (Ok r, w) ->
  contains (txt "Answer") r = false ->
  contains (txt "PAUSE") r = true ->
  contains (txt "Action") r = true ->
  extract_action r = None ->
  let st' := logged (answered st w next_prompt r i)
                    (Log WARNING (txt "Failed to extract action")) in
  iteration self i next_prompt st = (Ok (Continue_ next_prompt), st') /\
  for_loop self (i :: indices) next_prompt st
    = for_loop self indices next_prompt st'.
Proof.
  intros Hanswer Hfinal Hpause Haction Hextract st'.
  assert (iteration self i next_prompt st = (Ok (Continue_ next_prompt), st'))
    as Hit.
  { rewrite (iteration_eq _ _ _ _ _ _ Hanswer). cbv zeta.
    now rewrite Hfinal, Hpause, Haction, Hextract. }
  split; [exact Hit|]. now rewrite for_loop_cons, Hit.
Qed.



(** X9.  When an exception leaves the tool -- one that is not an
    instance of [Exception], or one raised while the tool formats an
    exception it has caught -- the loop does not catch it either: the
    run ends with it, after the completion has been appended to the
    messages and before any next prompt is built or logged. *)
Theorem tool_interrupt_aborts (self : ReActLoop) (i : nat) (indices : list nat)
    (next_prompt : str) (st st2 : state) (r : str) (w : World)
    (name arg : str) (tool : Tool) (e : exn) :
  agent_answer (messages st ++ user_part next_prompt) (world st) = (Ok r, w) ->
  contains (txt "Answer") r = false ->
  contains (txt "PAUSE") r = true ->
  contains (txt "Action") r = true ->
  extract_action r = Some (name, arg) ->
  tools self !! name = Some tool ->
  Tool_call tool arg (logged (answered st w next_prompt r i) (Invoke name arg))
    = (Raise e, st2) ->
  for_loop self (i :: indices) next_prompt st = (Raise e, st2) /\
  messages st2 = messages st ++ user_part next_prompt ++ [Msg assistant r] /\
  (trace st2 = trace (answered st w next_prompt r i) ++ [Invoke name arg] \/
   exists line,
     trace st2 = trace (answered st w next_prompt r i)
                   ++ [Invoke name arg; Log ERROR line]).
Proof.
  intros Hanswer Hfinal Hpause Haction Hextract Hlookup Htool.
  split.
  { rewrite for_loop_cons, (dispatch_pass _ _ _ _ _ _ _ _ _ Hanswer Hfinal
                              Hpause Haction Hextract Hlookup).
    now rewrite Htool. }
  apply Tool_call_frame in Htool as (Hm & Ht).
  unfold logged, answered in *. cbn [messages trace] in *.
  split; [now rewrite Hm, <- app_assoc|].
  destruct Ht as [-> | [line ->]]; [now left | right].
  exists line. now rewrite <- app_assoc.
Qed.

(** X12.  The registry of [ReActLoop.__init__] sends "calculate" to the
    calculator and "wikipedia" to the search, set up with the loop's own
    configuration: when the expression evaluates and prints, the next
    prompt is "Observation: " and the printed value; when the page is
    fetched and parsed, it is "Observation: " and the result lines. *)
Theorem registry_dispatch (cfg : Config) (i : nat) (next_prompt : str)
    (st : state) (r : str) (w : World) (arg : str) :
  agent_answer (messages st ++ user_part next_prompt) (world st) = (Ok r, w) ->
  contains (txt "Answer") r = false ->
  contains (txt "PAUSE") r = true ->
  contains (txt "Action") r = true ->
  let self := ReActLoop_init cfg in
  (forall value w2 text,
     extract_action r = Some (txt "calculate", arg) ->
     py_eval arg w = (Ok value, w2) ->
     py_str value = Ok text ->
     fst (iteration self i next_prompt st)
       = Ok (Continue_ (txt "Observation: " ++ text))) /\
  (forall response w2 soup,
     extract_action r = Some (txt "wikipedia", arg) ->
     client_get (SEARCH_API cfg) (<[txt "q" := arg]> (SEARCH_PARAMS cfg)) w
       = (Ok response, w2) ->
     raise_for_status response = Ok tt ->
     BeautifulSoup (response_text response) = Ok soup ->
     fst (iteration self i next_prompt st)
       = Ok (Continue_ (txt "Observation: " ++ search_results soup))).
Proof.
  intros Hanswer Hfinal Hpause Haction self. split.
  - intros value w2 text Hextract Heval Hstr.
    rewrite (dispatch_pass self i next_prompt st r w _ arg Calculator
               Hanswer Hfinal Hpause Haction Hextract eq_refl).
    cbn [Tool_call]. unfold Calculator_call, Calculator_try, try_except, bind,
      call, lift. cbn [world logged answered]. now rewrite Heval, Hstr.
  - intros response w2 soup Hextract Hget Hstatus Hparse.
    rewrite (dispatch_pass self i next_prompt st r w _ arg (BingSearch cfg)
               Hanswer Hfinal Hpause Haction Hextract eq_refl).
    cbn [Tool_call]. unfold BingSearch_call, BingSearch_try, try_except, bind,
      call, lift, ret. cbn [world logged answered].
    now rewrite Hget, Hstatus, Hparse.
Qed.


(** X17.  The handlers of the tools are not protected: when a tool has
    caught an instance of [Exception] and formatting it raises, what is
    raised leaves the tool.  If [f"{e}"] raises, nothing has been
    logged; if [str(e)] raises after it, the error line has. *)
Theorem unprintable_fault_escapes (e e' : exn) :
  is_Exception e = true ->
  (forall expression st w w1,
     py_eval expression (world st) = (Raise e, w) ->
     (py_format_exn e w = (Raise e', w1) ->
      Calculator_call expression st
        = (Raise e', State w1 (messages st) (trace st))) /\
     (forall line w2,
        py_format_exn e w = (Ok line, w1) ->
        py_str_exn e w1 = (Raise e', w2) ->
        Calculator_call expression st
          = (Raise e',
             State w2 (messages st)
                   (trace st ++ [Log ERROR (txt "Calculate error: " ++ line)])))) /\
  (forall cfg query st w w1,
     client_get (SEARCH_API cfg) (<[txt "q" := query]> (SEARCH_PARAMS cfg))
                (world st) = (Raise e, w) ->
     (py_format_exn e w = (Raise e', w1) ->
      BingSearch_call cfg query st
        = (Raise e', State w1 (messages st) (trace st))) /\
     (forall line w2,
        py_format_exn e w = (Ok line, w1) ->
        py_str_exn e w1 = (Raise e', w2) ->
        BingSearch_call cfg query st
          = (Raise e',
             State w2 (messages st)
                   (trace st ++ [Log ERROR (txt "Search API error: " ++ line)])))).
Proof.
  intros He.
  unfold BingSearch_call, Calculator_call, try_except, BingSearch_try,
    Calculator_try, bind, call, lift, ret, logger, emit.
  split.
  - intros expression st w w1 Heval. rewrite Heval. cbn [world messages trace].
    rewrite He. cbn [world messages trace]. split.
    + intros Hline. now rewrite Hline.
    + intros line w2 Hline Htext. rewrite Hline. cbn [world messages trace].
      now rewrite Htext.
  - intros cfg query st w w1 Hget. rewrite Hget. cbn [world messages trace].
    rewrite He. cbn [world messages trace]. split.
    + intros Hline. now rewrite Hline.
    + intros line w2 Hline Htext. rewrite Hline. cbn [world messages trace].
      now rewrite Htext.
Qed.

End More.

(** X13.  What [extract_action] returns stands in the text as it is:
    the name, a colon and a space, and the argument, up to the end of
    the line; the name is not empty and is made of letters and
    underscores, the argument is not empty and holds no newline. *)
Theorem extract_action_verbatim (text name arg : str) :
  extract_action text = Some (name, arg) ->
  is_name name /\ is_rest_of_line arg /\
  exists before after,
    text = before ++ name ++ txt ": " ++ arg ++ after /\
    (after = [] \/ exists after', after = newline :: after').
Proof.
  rewrite extract_action_first_directive. intros H.
  apply first_directive_some in H as (p & (head & tail & Hdrop & _ & Hn & Hr & Ht) & _).
  split; [exact Hn|]. split; [exact Hr|].
  exists (take p text ++ head), tail. split; [|exact Ht].
  rewrite <- (take_drop p text) at 1. rewrite Hdrop. now rewrite <- app_assoc.
Qed.

(** X14.  Lines added after a text do not change the directive
    extracted from it. *)
Theorem extract_action_ignores_later_lines (text more : str) (d : str * str) :
  extract_action text = Some d ->
  extract_action (text ++ newline :: more) = Some d.
Proof.
  rewrite !extract_action_first_directive.
  induction text as [|c text IH]; cbn [first_directive app].
  - discriminate.
  - change (c :: text ++ newline :: more) with ((c :: text) ++ newline :: more).
    destruct (directive_here (c :: text)) as [[[n r] tl]|] eqn:Here.
    + intros [= <-]. now rewrite (directive_here_app _ more _ _ _ Here).
    + intros Hrest.
      destruct (directive_here ((c :: text) ++ newline :: more))
        as [[[n r] tl]|] eqn:Hext.
      * apply directive_here_back in Hext as [tail0 Hback]. congruence.
      * now apply IH.
Qed.


Lemma run_returns_answer_or_sentinel_witness :
  let C := Demo.model [Demo.calculate_turn; Scenario.final_turn] in
  let st' := snd (run (C := C) Demo.loop Scenario.question
                      (Demo.fresh [Demo.calculate_turn; Scenario.final_turn])) in
  (contains (txt "Answer") Scenario.final_turn = true /\
   last (messages st') = Some (Msg assistant Scenario.final_turn)) \/
  (Scenario.final_turn = LIMIT_REACHED /\
   exists new,
     trace st' = trace (Demo.fresh [Demo.calculate_turn; Scenario.final_turn]) ++ new /\
     completions new = Z.to_nat (MAX_ITERATIONS (config Demo.loop)) /\
     forall sent answer, In (Completion sent answer) new ->
       exists r, answer = Ok r /\ contains (txt "Answer") r = false).
Proof.
  intros C st'.
  apply (run_returns_answer_or_sentinel (C := C) Demo.loop Scenario.question
           (Demo.fresh [Demo.calculate_turn; Scenario.final_turn]) st'
           Scenario.final_turn).
  vm_compute. reflexivity.
Defined.

Lemma zero_budget_returns_sentinel_witness :
  run (C := Demo.model []) (ReActLoop_init (Demo.config_with (-1)))
      Scenario.question (Demo.fresh [])
  = (Ok LIMIT_REACHED, Demo.fresh []).
Proof.
  apply (zero_budget_returns_sentinel (C := Demo.model [])). vm_compute.
  discriminate.
Defined.

Lemma completion_fault_aborts_witness :
  fst (for_loop (C := Scenario.failing) Demo.loop [0; 1; 2]%nat Scenario.question
                (Demo.start (C := Scenario.failing) 0%nat []))
  = Raise (Exn true (txt "connection refused")).
Proof.
  rewrite (completion_fault_aborts (C := Scenario.failing) Demo.loop 0 [1; 2]%nat
             Scenario.question (Demo.start (C := Scenario.failing) 0%nat [])
             (Exn true (txt "connection refused")) 1%nat eq_refl).
  reflexivity.
Defined.

Lemma parse_fault_retries_witness :
  fst (iteration (C := Demo.model [Scenario.paris_turn]) Demo.loop 0 Scenario.question
                 (Demo.fresh [Scenario.paris_turn]))
  = Ok (Continue_ Scenario.question).
Proof.
  rewrite (proj1 (parse_fault_retries (C := Demo.model [Scenario.paris_turn])
                    Demo.loop 0 [] Scenario.question (Demo.fresh [Scenario.paris_turn])
                    Scenario.paris_turn 1%nat eq_refl eq_refl eq_refl eq_refl eq_refl)).
  reflexivity.
Defined.


Lemma tool_interrupt_aborts_witness :
  fst (for_loop (C := Scenario.interrupted) Demo.loop [0; 1]%nat Scenario.question
                (Demo.start (C := Scenario.interrupted) 0%nat []))
  = Raise (Exn false []).
Proof.
  set (C := Scenario.interrupted).
  set (st := Demo.start (C := C) 0%nat []).
  rewrite (proj1 (tool_interrupt_aborts (C := C) Demo.loop 0 [1]%nat Scenario.question
                    st
                    (snd (Tool_call (C := C) (BingSearch Demo.default_config)
                            (txt "*-*")
                            (logged (answered st 1%nat Scenario.question
                                              Scenario.wikipedia_turn 0)
                                    (Invoke (txt "wikipedia") (txt "*-*")))))
                    Scenario.wikipedia_turn 1%nat (txt "wikipedia") (txt "*-*")
                    (BingSearch Demo.default_config) (Exn false [])
                    eq_refl eq_refl eq_refl eq_refl eq_refl eq_refl eq_refl)).
  reflexivity.
Defined.

Lemma registry_dispatch_witness :
  fst (iteration (C := Demo.model [Scenario.wikipedia_turn])
                 (ReActLoop_init Demo.default_config) 0 Scenario.question
                 (Demo.fresh [Scenario.wikipedia_turn]))
  = Ok (Continue_ (txt "Observation: " ++ Demo.lines ["H: C"; "H: C"]%string)).
Proof.
  rewrite (proj2 (registry_dispatch (C := Demo.model [Scenario.wikipedia_turn])
                    Demo.default_config 0 Scenario.question
                    (Demo.fresh [Scenario.wikipedia_turn]) Scenario.wikipedia_turn
                    1%nat (txt "*-*") eq_refl eq_refl eq_refl eq_refl)
                 (200, txt "*-*") 1%nat (txt "*-*") eq_refl eq_refl eq_refl eq_refl).
  reflexivity.
Defined.

Lemma extract_action_verbatim_witness :
  is_name (txt "calculate") /\ is_rest_of_line (txt "2 + 2") /\
  exists before after,
    Demo.calculate_turn = before ++ txt "calculate" ++ txt ": " ++ txt "2 + 2" ++ after /\
    (after = [] \/ exists after', after = newline :: after').
Proof.
  apply (extract_action_verbatim Demo.calculate_turn). reflexivity.
Defined.

Lemma extract_action_ignores_later_lines_witness :
  extract_action (Demo.calculate_turn ++ newline :: Scenario.wikipedia_turn)
  = Some (txt "calculate", txt "2 + 2").
Proof.
  apply (extract_action_ignores_later_lines Demo.calculate_turn). reflexivity.
Defined.


Lemma unprintable_fault_escapes_witness :
  fst (Calculator_call (C := Scenario.unprintable) (txt "2 + 2")
         (Demo.start (C := Scenario.unprintable) 0%nat []))
  = Raise (Exn true (txt "division by zero")).
Proof.
  rewrite (proj1 (proj1 (unprintable_fault_escapes (C := Scenario.unprintable)
                           (Exn true []) (Exn true (txt "division by zero"))
                           eq_refl)
                        (txt "2 + 2")
                        (Demo.start (C := Scenario.unprintable) 0%nat [])
                        0%nat 0%nat eq_refl) eq_refl).
  reflexivity.
Defined.
